(** * iklan-baris-online: the data model of [app/models.py] and the
    payment-driven lifecycle built on it.

    The first part embeds the SQLModel classes of [app/models.py]: the
    status enumerations, the table rows with their declared defaults, and
    the validated request schemas.  The second part models the lifecycle
    components that the specification describes on top of these rows
    (state machine, quota ledger, reconciliation, expiration sweep). *)

From Stdlib Require Import ZArith List Ascii String Bool Lia.
Import ListNotations.
Local Open Scope string_scope.
Local Open Scope list_scope.
Local Open Scope Z_scope.

Set Implicit Arguments.

(** ** Basic Python values *)

(** [datetime]: microseconds since the epoch (naive UTC, as produced by
    [datetime.utcnow]). *)
Definition datetime := Z.

(** [date]: the proleptic day number ([date.toordinal]). *)
Definition date := Z.

Definition microseconds_per_day : Z := 86400000000.

(** [timedelta(days=d)] as a number of microseconds. *)
Definition timedelta_days (d : Z) : Z := d * microseconds_per_day.

(** [decimal.Decimal]: coefficient and exponent, value
    [coefficient * 10 ^ exponent]. *)
Record Decimal : Type := mkDecimal { coefficient : Z; exponent : Z }.

(** The JSON columns ([Dict[str, Any]]): association lists of scalar JSON
    values. *)
Inductive json : Type :=
| JNull
| JBool (b : bool)
| JInt (n : Z)
| JStr (s : string).

Definition json_dict := list (string * json).

Fixpoint dict_get (key : string) (d : json_dict) : option json :=
  match d with
  | [] => None
  | (k, v) :: rest => if String.eqb k key then Some v else dict_get key rest
  end.

(** The clock that every component receives: the current instant and the
    current calendar day ([datetime.utcnow()] and [date.today()], the two
    default factories of the model). *)
Record Clock : Type := mkClock { now : datetime; today : date }.

(** Outcome of fallible operations. *)
Inductive result (E A : Type) : Type :=
| Ok (a : A)
| Err (e : E).
Arguments Ok {E A} a.
Arguments Err {E A} e.

(** ** Enumerations of [app/models.py] *)

Module PaymentStatus.
Inductive t : Set := PENDING | COMPLETED | FAILED | CANCELLED | REFUNDED.

Definition eqb (a b : t) : bool :=
  match a, b with
  | PENDING, PENDING | COMPLETED, COMPLETED | FAILED, FAILED
  | CANCELLED, CANCELLED | REFUNDED, REFUNDED => true
  | _, _ => false
  end.

(** The string value of each member ([class PaymentStatus(str, Enum)]). *)
Definition value (a : t) : string :=
  match a with
  | PENDING => "pending"
  | COMPLETED => "completed"
  | FAILED => "failed"
  | CANCELLED => "cancelled"
  | REFUNDED => "refunded"
  end.

(** The members in declaration order. *)
Definition members : list t := [PENDING; COMPLETED; FAILED; CANCELLED; REFUNDED].
End PaymentStatus.

Module MembershipStatus.
Inductive t : Set := ACTIVE | INACTIVE | EXPIRED.

Definition eqb (a b : t) : bool :=
  match a, b with
  | ACTIVE, ACTIVE | INACTIVE, INACTIVE | EXPIRED, EXPIRED => true
  | _, _ => false
  end.

Definition value (a : t) : string :=
  match a with
  | ACTIVE => "active"
  | INACTIVE => "inactive"
  | EXPIRED => "expired"
  end.

Definition members : list t := [ACTIVE; INACTIVE; EXPIRED].
End MembershipStatus.

Module AdStatus.
Inductive t : Set := DRAFT | ACTIVE | UNDER_REVIEW | REJECTED | EXPIRED | DELETED.

Definition value (a : t) : string :=
  match a with
  | DRAFT => "draft"
  | ACTIVE => "active"
  | UNDER_REVIEW => "under_review"
  | REJECTED => "rejected"
  | EXPIRED => "expired"
  | DELETED => "deleted"
  end.

Definition members : list t :=
  [DRAFT; ACTIVE; UNDER_REVIEW; REJECTED; EXPIRED; DELETED].
End AdStatus.

Module PaymentType.
Inductive t : Set := MEMBERSHIP | AD_BOOST.

Definition value (a : t) : string :=
  match a with
  | MEMBERSHIP => "membership"
  | AD_BOOST => "ad_boost"
  end.

Definition members : list t := [MEMBERSHIP; AD_BOOST].
End PaymentType.

Module UserRole.
Inductive t : Set := USER | ADMIN.

Definition value (a : t) : string :=
  match a with
  | USER => "user"
  | ADMIN => "admin"
  end.

Definition members : list t := [USER; ADMIN].
End UserRole.

Module UserStatus.
Inductive t : Set := ACTIVE | INACTIVE | SUSPENDED.

Definition value (a : t) : string :=
  match a with
  | ACTIVE => "active"
  | INACTIVE => "inactive"
  | SUSPENDED => "suspended"
  end.

Definition members : list t := [ACTIVE; INACTIVE; SUSPENDED].
End UserStatus.

(** [E(value)]: the first member, in declaration order, whose value is
    the string; [None] is the [ValueError] of a string that is no
    member's value. *)
Definition enum_by_value {A : Type} (value : A -> string) (members : list A)
    (s : string) : option A :=
  find (fun m => String.eqb (value m) s) members.

(** ** Table rows

    Every [table=True] class becomes a record of its columns; the
    [Relationship] attributes are derived from the foreign keys and are
    not stored.  [init] is the class constructor: a column that declares a
    default takes an optional keyword ([None] = keyword omitted), a column
    without default is a mandatory argument; the clock stands for the
    default factories [datetime.utcnow] and [date.today].  Table classes
    run no validators, so [init] stores what it is given. *)

Definition keyword {A : Type} (given : option A) (default : A) : A :=
  match given with
  | Some a => a
  | None => default
  end.

Module MembershipPackage.
Record t : Type := mk {
  id : option Z;
  name : string;
  description : string;
  price : Decimal;
  duration_days : Z;
  max_ads : Z;
  boost_credits : Z;
  priority_support : bool;
  features : json_dict;
  is_active : bool;
  created_at : datetime;
  updated_at : datetime
}.

Definition init (clk : Clock) (name description : string) (price : Decimal)
    (duration_days max_ads : Z)
    (id boost_credits : option Z) (priority_support : option bool)
    (features : option json_dict) (is_active : option bool)
    (created_at updated_at : option datetime) : t :=
  {| id := id;
     name := name;
     description := description;
     price := price;
     duration_days := duration_days;
     max_ads := max_ads;
     boost_credits := keyword boost_credits 0;
     priority_support := keyword priority_support false;
     features := keyword features [];
     is_active := keyword is_active true;
     created_at := keyword created_at (now clk);
     updated_at := keyword updated_at (now clk) |}.
End MembershipPackage.

Module UserMembership.
Record t : Type := mk {
  id : option Z;
  user_id : Z;
  package_id : Z;
  status : MembershipStatus.t;
  start_date : date;
  end_date : date;
  remaining_boost_credits : Z;
  remaining_ads : Z;
  auto_renew : bool;
  created_at : datetime;
  updated_at : datetime
}.

Definition init (clk : Clock) (user_id package_id : Z) (end_date : date)
    (id : option Z) (status : option MembershipStatus.t)
    (start_date : option date)
    (remaining_boost_credits remaining_ads : option Z)
    (auto_renew : option bool)
    (created_at updated_at : option datetime) : t :=
  {| id := id;
     user_id := user_id;
     package_id := package_id;
     status := keyword status MembershipStatus.ACTIVE;
     start_date := keyword start_date (today clk);
     end_date := end_date;
     remaining_boost_credits := keyword remaining_boost_credits 0;
     remaining_ads := keyword remaining_ads 0;
     auto_renew := keyword auto_renew false;
     created_at := keyword created_at (now clk);
     updated_at := keyword updated_at (now clk) |}.

Definition set_status (s : MembershipStatus.t) (m : t) : t :=
  {| id := id m; user_id := user_id m; package_id := package_id m;
     status := s;
     start_date := start_date m; end_date := end_date m;
     remaining_boost_credits := remaining_boost_credits m;
     remaining_ads := remaining_ads m;
     auto_renew := auto_renew m;
     created_at := created_at m; updated_at := updated_at m |}.

Definition set_remaining_ads (n : Z) (m : t) : t :=
  {| id := id m; user_id := user_id m; package_id := package_id m;
     status := status m;
     start_date := start_date m; end_date := end_date m;
     remaining_boost_credits := remaining_boost_credits m;
     remaining_ads := n;
     auto_renew := auto_renew m;
     created_at := created_at m; updated_at := updated_at m |}.

Definition set_remaining_boost_credits (n : Z) (m : t) : t :=
  {| id := id m; user_id := user_id m; package_id := package_id m;
     status := status m;
     start_date := start_date m; end_date := end_date m;
     remaining_boost_credits := n;
     remaining_ads := remaining_ads m;
     auto_renew := auto_renew m;
     created_at := created_at m; updated_at := updated_at m |}.

Definition is_active (m : t) : bool :=
  MembershipStatus.eqb (status m) MembershipStatus.ACTIVE.
End UserMembership.

Module Ad.
Record t : Type := mk {
  id : option Z;
  user_id : Z;
  category_id : Z;
  title : string;
  description : string;
  price : option Decimal;
  price_negotiable : bool;
  location : option string;
  contact_info : option string;
  images : list string;
  tags : list string;
  status : AdStatus.t;
  is_boosted : bool;
  boost_expires_at : option datetime;
  views_count : Z;
  contact_count : Z;
  featured : bool;
  created_at : datetime;
  updated_at : datetime;
  expires_at : option datetime
}.

Definition init (clk : Clock) (user_id category_id : Z)
    (title description : string)
    (id : option Z) (price : option Decimal) (price_negotiable : option bool)
    (location contact_info : option string)
    (images tags : option (list string)) (status : option AdStatus.t)
    (is_boosted : option bool) (boost_expires_at : option datetime)
    (views_count contact_count : option Z) (featured : option bool)
    (created_at updated_at : option datetime)
    (expires_at : option datetime) : t :=
  {| id := id;
     user_id := user_id;
     category_id := category_id;
     title := title;
     description := description;
     price := price;
     price_negotiable := keyword price_negotiable false;
     location := location;
     contact_info := contact_info;
     images := keyword images [];
     tags := keyword tags [];
     status := keyword status AdStatus.DRAFT;
     is_boosted := keyword is_boosted false;
     boost_expires_at := boost_expires_at;
     views_count := keyword views_count 0;
     contact_count := keyword contact_count 0;
     featured := keyword featured false;
     created_at := keyword created_at (now clk);
     updated_at := keyword updated_at (now clk);
     expires_at := expires_at |}.

Definition set_boost (flag : bool) (expiry : option datetime) (a : t) : t :=
  {| id := id a; user_id := user_id a; category_id := category_id a;
     title := title a; description := description a; price := price a;
     price_negotiable := price_negotiable a; location := location a;
     contact_info := contact_info a; images := images a; tags := tags a;
     status := status a;
     is_boosted := flag;
     boost_expires_at := expiry;
     views_count := views_count a; contact_count := contact_count a;
     featured := featured a; created_at := created_at a;
     updated_at := updated_at a; expires_at := expires_at a |}.

Definition set_status (s : AdStatus.t) (a : t) : t :=
  {| id := id a; user_id := user_id a; category_id := category_id a;
     title := title a; description := description a; price := price a;
     price_negotiable := price_negotiable a; location := location a;
     contact_info := contact_info a; images := images a; tags := tags a;
     status := s;
     is_boosted := is_boosted a;
     boost_expires_at := boost_expires_at a;
     views_count := views_count a; contact_count := contact_count a;
     featured := featured a; created_at := created_at a;
     updated_at := updated_at a; expires_at := expires_at a |}.
End Ad.

Module Payment.
Record t : Type := mk {
  id : option Z;
  user_id : Z;
  membership_package_id : option Z;
  boosted_ad_id : option Z;
  payment_type : PaymentType.t;
  amount : Decimal;
  currency : string;
  status : PaymentStatus.t;
  midtrans_order_id : string;
  midtrans_transaction_id : option string;
  payment_method : option string;
  payment_details : json_dict;
  paid_at : option datetime;
  expires_at : option datetime;
  created_at : datetime;
  updated_at : datetime
}.

Definition init (clk : Clock) (user_id : Z) (payment_type : PaymentType.t)
    (amount : Decimal) (midtrans_order_id : string)
    (id membership_package_id boosted_ad_id : option Z)
    (currency : option string) (status : option PaymentStatus.t)
    (midtrans_transaction_id payment_method : option string)
    (payment_details : option json_dict)
    (paid_at expires_at created_at updated_at : option datetime) : t :=
  {| id := id;
     user_id := user_id;
     membership_package_id := membership_package_id;
     boosted_ad_id := boosted_ad_id;
     payment_type := payment_type;
     amount := amount;
     currency := keyword currency "IDR";
     status := keyword status PaymentStatus.PENDING;
     midtrans_order_id := midtrans_order_id;
     midtrans_transaction_id := midtrans_transaction_id;
     payment_method := payment_method;
     payment_details := keyword payment_details [];
     paid_at := paid_at;
     expires_at := expires_at;
     created_at := keyword created_at (now clk);
     updated_at := keyword updated_at (now clk) |}.

Definition set_id (i : option Z) (p : t) : t :=
  {| id := i; user_id := user_id p;
     membership_package_id := membership_package_id p;
     boosted_ad_id := boosted_ad_id p; payment_type := payment_type p;
     amount := amount p; currency := currency p; status := status p;
     midtrans_order_id := midtrans_order_id p;
     midtrans_transaction_id := midtrans_transaction_id p;
     payment_method := payment_method p;
     payment_details := payment_details p;
     paid_at := paid_at p; expires_at := expires_at p;
     created_at := created_at p; updated_at := updated_at p |}.

(** The columns a state transition writes: status, gateway transaction id,
    gateway metadata and payment time. *)
Definition set_outcome (s : PaymentStatus.t) (txn : option string)
    (details : json_dict) (paid : option datetime) (p : t) : t :=
  {| id := id p; user_id := user_id p;
     membership_package_id := membership_package_id p;
     boosted_ad_id := boosted_ad_id p; payment_type := payment_type p;
     amount := amount p; currency := currency p;
     status := s;
     midtrans_order_id := midtrans_order_id p;
     midtrans_transaction_id := txn;
     payment_method := payment_method p;
     payment_details := details;
     paid_at := paid;
     expires_at := expires_at p;
     created_at := created_at p; updated_at := updated_at p |}.

(** [status == completed] and [paid_at is not None], as booleans. *)
Definition is_completed (p : t) : bool :=
  PaymentStatus.eqb (status p) PaymentStatus.COMPLETED.

Definition paid_at_set (p : t) : bool :=
  match paid_at p with
  | Some _ => true
  | None => false
  end.
End Payment.

(** ** Request schemas

    The [table=False] classes are validated when they are built.  The
    keyword arguments are given with their Python types; [None] stands for
    an omitted keyword or an explicit [None], which a required field
    rejects and an [Optional] field with [default=None] stores. *)

Inductive ErrorKind : Set :=
| Missing
| GreaterThanEqual (bound : Z)
| LessThanEqual (bound : Z).

(** One entry of a [ValidationError]: the field and what is wrong. *)
Definition ValidationError : Type := list (string * ErrorKind).

Definition required {A : Type} (field : string) (given : option A)
  : ValidationError :=
  match given with
  | Some _ => []
  | None => [(field, Missing)]
  end.

Module AdBoost.
Record t : Type := mk { ad_id : Z; duration_days : Z }.

(** [duration_days: int = Field(ge=1, le=30)]. *)
Definition check_duration_days (given : option Z) : ValidationError :=
  match given with
  | None => [("duration_days", Missing)]
  | Some d =>
      (if d <? 1 then [("duration_days", GreaterThanEqual 1)] else [])
      ++ (if 30 <? d then [("duration_days", LessThanEqual 30)] else [])
  end.

Definition validate (ad_id duration_days : option Z)
  : result ValidationError t :=
  match ad_id, duration_days,
        required "ad_id" ad_id ++ check_duration_days duration_days with
  | Some a, Some d, [] => Ok {| ad_id := a; duration_days := d |}
  | _, _, errors => Err errors
  end.
End AdBoost.

(** A validated [PaymentCreate]: it has the type, the two optional
    target ids and the amount, and no [status] or [paid_at]. *)
Module PaymentCreate.
Record t : Type := mk {
  payment_type : PaymentType.t;
  membership_package_id : option Z;
  boosted_ad_id : option Z;
  amount : Decimal
}.
End PaymentCreate.

Module PaymentCallback.
Record t : Type := mk {
  order_id : string;
  transaction_status : string;
  transaction_id : option string;
  payment_type : option string;
  gross_amount : option string;
  signature_key : option string
}.

(** [order_id] and [transaction_status] are plain [str] fields; the four
    others are [Optional[str] = Field(default=None)]. *)
Definition validate (order_id transaction_status transaction_id
    payment_type gross_amount signature_key : option string)
  : result ValidationError t :=
  match order_id, transaction_status,
        required "order_id" order_id
        ++ required "transaction_status" transaction_status with
  | Some o, Some s, [] =>
      Ok {| order_id := o; transaction_status := s;
            transaction_id := transaction_id;
            payment_type := payment_type;
            gross_amount := gross_amount;
            signature_key := signature_key |}
  | _, _, errors => Err errors
  end.
End PaymentCallback.

(** ** The store

    A table is the list of its rows in insertion order. *)

Definition opt_Z_eqb (a b : option Z) : bool :=
  match a, b with
  | Some x, Some y => x =? y
  | None, None => true
  | _, _ => false
  end.

(** The largest primary key among the rows, if any row has one. *)
Fixpoint max_key (ids : list (option Z)) : option Z :=
  match ids with
  | [] => None
  | i :: rest =>
      match i, max_key rest with
      | Some k, Some m => Some (Z.max k m)
      | Some k, None => Some k
      | None, m => m
      end
  end.

(** The next value of an auto-incremented primary key: one more than the
    largest key stored, and 1 in a table without keys. *)
Definition next_id (ids : list (option Z)) : Z :=
  match max_key ids with
  | Some m => m + 1
  | None => 1
  end.

(** Rewrites the first row that satisfies [f]; a table without such a row
    is left as it is. *)
Fixpoint update_first {A : Type} (f : A -> bool) (g : A -> A) (l : list A)
  : list A :=
  match l with
  | [] => []
  | x :: rest => if f x then g x :: rest else x :: update_first f g rest
  end.

Inductive StoreError : Set :=
| IntegrityError (column : string).

Definition has_order_id (oid : string) (p : Payment.t) : bool :=
  String.eqb (Payment.midtrans_order_id p) oid.

(** INSERT into [payments]: [id] is the primary key (auto-incremented when
    the row carries none) and [midtrans_order_id] is declared
    [unique=True], so a row that repeats either is refused.  The table
    keeps the row as it is given; the scale at which a NUMERIC column
    hands a decimal back is not represented. *)
Definition insert_payment (p : Payment.t) (tbl : list Payment.t)
  : result StoreError (list Payment.t) :=
  let i := keyword (Payment.id p) (next_id (map Payment.id tbl)) in
  if existsb (fun q => opt_Z_eqb (Payment.id q) (Some i)) tbl
  then Err (IntegrityError "id")
  else if existsb (has_order_id (Payment.midtrans_order_id p)) tbl
  then Err (IntegrityError "midtrans_order_id")
  else Ok (tbl ++ [Payment.set_id (Some i) p]).

Record Ledger : Type := mkLedger {
  payments : list Payment.t;
  memberships : list UserMembership.t;
  ads : list Ad.t;
  packages : list MembershipPackage.t
}.

(** ** Payment state machine *)

(** Modelled from the spec: the checkout flow that creates a Payment is
    not in [app/models.py].  It builds the row from a validated
    [PaymentCreate], which carries neither [status] nor [paid_at], so both
    take the defaults the [Payment] class declares. *)
Definition create_payment (clk : Clock) (user_id : Z) (order_id : string)
    (expires_at : option datetime) (req : PaymentCreate.t) : Payment.t :=
  Payment.init clk user_id (PaymentCreate.payment_type req)
    (PaymentCreate.amount req) order_id
    None (PaymentCreate.membership_package_id req)
    (PaymentCreate.boosted_ad_id req)
    None None None None None None expires_at None None.

(** Modelled from the spec: the transition table of section 4.1,
    [pending -> {completed, failed, cancelled}] and
    [completed -> refunded]. *)
Definition allowed (from to : PaymentStatus.t) : bool :=
  match from, to with
  | PaymentStatus.PENDING, PaymentStatus.COMPLETED
  | PaymentStatus.PENDING, PaymentStatus.FAILED
  | PaymentStatus.PENDING, PaymentStatus.CANCELLED
  | PaymentStatus.COMPLETED, PaymentStatus.REFUNDED => true
  | _, _ => false
  end.

(** Modelled from the spec: every status but [pending] is called terminal
    (a completed payment is "in a terminal state", section 1 and
    scenario E). *)
Definition is_terminal (s : PaymentStatus.t) : bool :=
  negb (PaymentStatus.eqb s PaymentStatus.PENDING).

(** Modelled from the spec: the event of section 4.1, a target status plus
    optional transaction id, paid-at and metadata. *)
Record PaymentEvent : Type := mkEvent {
  ev_order_id : string;
  ev_target : PaymentStatus.t;
  ev_transaction_id : option string;
  ev_paid_at : option datetime;
  ev_metadata : option json_dict
}.

(** Modelled from the spec: the side effects a transition returns. *)
Inductive SideEffect : Type :=
| EffGrantMembership (package_id : option Z)
| EffExtendBoost (ad_id : option Z) (duration_days : option Z)
| EffRevokeGrantedBenefit.

Inductive TransitionError : Set :=
| InvalidTransition
| OrderMismatch.

Inductive TransitionResult : Type :=
| Transitioned (p : Payment.t) (effects : list SideEffect)
| AlreadyInTarget
| Rejected (e : TransitionError).

(** What the specification leaves to collaborators or does not fix: the
    signature verifier and its secret, the gateway status lookup table,
    where a boost payment records its duration, and how a refund revokes a
    benefit on the membership and ad rows. *)
Record Collaborators : Type := mkCollaborators {
  verify : PaymentCallback.t -> string -> bool;
  secret : string;
  map_status : string -> option PaymentStatus.t;
  boost_days : Payment.t -> option Z;
  apply_revoke : Payment.t -> list UserMembership.t -> list Ad.t
                 -> option (list UserMembership.t * list Ad.t)
}.

(** Modelled from the spec: the effects of section 4.1. *)
Definition effects_of (env : Collaborators) (p : Payment.t)
    (target : PaymentStatus.t) : list SideEffect :=
  match Payment.status p, target with
  | PaymentStatus.PENDING, PaymentStatus.COMPLETED =>
      match Payment.payment_type p with
      | PaymentType.MEMBERSHIP =>
          [EffGrantMembership (Payment.membership_package_id p)]
      | PaymentType.AD_BOOST =>
          [EffExtendBoost (Payment.boosted_ad_id p) (boost_days env p)]
      end
  | PaymentStatus.COMPLETED, PaymentStatus.REFUNDED =>
      [EffRevokeGrantedBenefit]
  | _, _ => []
  end.

(** Modelled from the spec: [transition(payment, event)] of section 4.1.
    A misrouted event is rejected; a payment already in the requested
    terminal status is reported as such (not an error); a transition
    outside the table is rejected; otherwise the new row and the effects
    are returned.  Completion records the payment time. *)
Definition transition (env : Collaborators) (clk : Clock) (p : Payment.t)
    (ev : PaymentEvent) : TransitionResult :=
  let target := ev_target ev in
  if negb (has_order_id (ev_order_id ev) p) then Rejected OrderMismatch
  else if PaymentStatus.eqb (Payment.status p) target && is_terminal target
  then AlreadyInTarget
  else if allowed (Payment.status p) target
  then Transitioned
         (Payment.set_outcome target
            (match ev_transaction_id ev with
             | Some txn => Some txn
             | None => Payment.midtrans_transaction_id p
             end)
            (keyword (ev_metadata ev) (Payment.payment_details p))
            (match target with
             | PaymentStatus.COMPLETED =>
                 Some (keyword (ev_paid_at ev) (now clk))
             | _ => Payment.paid_at p
             end)
            p)
         (effects_of env p target)
  else Rejected InvalidTransition.

(** ** Quota ledger *)

Inductive QuotaError : Set :=
| QuotaExhausted.

Definition superseded_by (user : Z) (m : UserMembership.t) : bool :=
  (UserMembership.user_id m =? user) && UserMembership.is_active m.

(** Modelled from the spec: [GrantMembership(user, package)] of section
    4.2.  An active membership of the user is forced to [inactive] and
    kept; the new row takes the class defaults (status [active]) with the
    dates and counters of the package.  A package without primary key
    cannot be referenced. *)
Definition GrantMembership (clk : Clock) (user : Z)
    (pkg : MembershipPackage.t) (tbl : list UserMembership.t)
  : option (list UserMembership.t) :=
  match MembershipPackage.id pkg with
  | None => None
  | Some pid =>
      let kept :=
        map (fun m => if superseded_by user m
                      then UserMembership.set_status MembershipStatus.INACTIVE m
                      else m) tbl in
      Some (kept ++
            [UserMembership.init clk user pid
               (today clk + MembershipPackage.duration_days pkg)
               (Some (next_id (map UserMembership.id tbl)))
               None (Some (today clk))
               (Some (MembershipPackage.boost_credits pkg))
               (Some (MembershipPackage.max_ads pkg))
               None None None])
  end.

(** Modelled from the spec: [ConsumeAdQuota(membership)] of section 4.2,
    which fails with [QuotaExhausted] if [remaining_ads == 0] and
    otherwise decrements.  Counters of a membership that is not active are
    not honoured (section 4.4). *)
Definition ConsumeAdQuota (m : UserMembership.t)
  : result QuotaError UserMembership.t :=
  if negb (UserMembership.is_active m) then Err QuotaExhausted
  else if UserMembership.remaining_ads m =? 0 then Err QuotaExhausted
  else Ok (UserMembership.set_remaining_ads
             (UserMembership.remaining_ads m - 1) m).

(** Modelled from the spec: [ConsumeBoostCredit(membership)], the same
    pattern over [remaining_boost_credits]. *)
Definition ConsumeBoostCredit (m : UserMembership.t)
  : result QuotaError UserMembership.t :=
  if negb (UserMembership.is_active m) then Err QuotaExhausted
  else if UserMembership.remaining_boost_credits m =? 0
  then Err QuotaExhausted
  else Ok (UserMembership.set_remaining_boost_credits
             (UserMembership.remaining_boost_credits m - 1) m).

(** Modelled from the spec: [ExtendBoost(ad, days)] of section 4.2: the
    flag is set and the expiry is counted from the later of the current
    time and the existing expiry (from the current time when the ad has
    none). *)
Definition ExtendBoost (clk : Clock) (days : Z) (a : Ad.t) : Ad.t :=
  let base :=
    match Ad.boost_expires_at a with
    | Some expiry => Z.max (now clk) expiry
    | None => now clk
    end in
  Ad.set_boost true (Some (base + timedelta_days days)) a.

(** ** Reconciliation engine *)

Definition package_has_id (pid : Z) (k : MembershipPackage.t) : bool :=
  opt_Z_eqb (MembershipPackage.id k) (Some pid).

Definition ad_has_id (aid : Z) (a : Ad.t) : bool :=
  opt_Z_eqb (Ad.id a) (Some aid).

(** Modelled from the spec: one side effect applied to the membership and
    ad rows (section 4.3, step 5).  [None] is a failed application: a
    missing target id, an unknown package or ad, or a refused revocation. *)
Definition apply_effect (env : Collaborators) (clk : Clock) (p : Payment.t)
    (catalog : list MembershipPackage.t) (eff : SideEffect)
    (rows : list UserMembership.t * list Ad.t)
  : option (list UserMembership.t * list Ad.t) :=
  let (ms, adverts) := rows in
  match eff with
  | EffGrantMembership (Some pid) =>
      match find (package_has_id pid) catalog with
      | Some pkg =>
          match GrantMembership clk (Payment.user_id p) pkg ms with
          | Some ms' => Some (ms', adverts)
          | None => None
          end
      | None => None
      end
  | EffGrantMembership None => None
  | EffExtendBoost (Some aid) (Some days) =>
      if existsb (ad_has_id aid) adverts
      then Some (ms, update_first (ad_has_id aid) (ExtendBoost clk days) adverts)
      else None
  | EffExtendBoost _ _ => None
  | EffRevokeGrantedBenefit => apply_revoke env p ms adverts
  end.

Fixpoint apply_effects (env : Collaborators) (clk : Clock) (p : Payment.t)
    (catalog : list MembershipPackage.t) (effs : list SideEffect)
    (rows : list UserMembership.t * list Ad.t)
  : option (list UserMembership.t * list Ad.t) :=
  match effs with
  | [] => Some rows
  | eff :: rest =>
      match apply_effect env clk p catalog eff rows with
      | Some rows' => apply_effects env clk p catalog rest rows'
      | None => None
      end
  end.

Inductive ReconcileError : Set :=
| InvalidSignature
| UnknownOrder
| UnmappedStatus
| ConflictingStatus
| TransitionRejected (e : TransitionError)
| PartialGrantFailure.

Inductive ReconcileSuccess : Set :=
| Applied
| AlreadyApplied.

Definition ReconciliationResult : Type := result ReconcileError ReconcileSuccess.

(** The event a callback stands for once its status is mapped; a callback
    carries no payment time and no metadata. *)
Definition event_of (cb : PaymentCallback.t) (target : PaymentStatus.t)
  : PaymentEvent :=
  {| ev_order_id := PaymentCallback.order_id cb;
     ev_target := target;
     ev_transaction_id := PaymentCallback.transaction_id cb;
     ev_paid_at := None;
     ev_metadata := None |}.

(** Modelled from the spec: [reconcile(callbackEvent)] of section 4.3,
    steps 1 to 5, returning the result and the ledger after it.  A failed
    step leaves the ledger as it was (the transaction is rolled back).
    [ConflictingStatus] is reported for a payment in a terminal status
    from which the table has no transition to the requested one. *)
Definition reconcile (env : Collaborators) (clk : Clock)
    (cb : PaymentCallback.t) (L : Ledger) : ReconciliationResult * Ledger :=
  if negb (verify env cb (secret env)) then (Err InvalidSignature, L)
  else
    let key := has_order_id (PaymentCallback.order_id cb) in
    match find key (payments L) with
    | None => (Err UnknownOrder, L)
    | Some p =>
        match map_status env (PaymentCallback.transaction_status cb) with
        | None => (Err UnmappedStatus, L)
        | Some target =>
            if PaymentStatus.eqb (Payment.status p) target
               && is_terminal target
            then (Ok AlreadyApplied, L)
            else if is_terminal (Payment.status p)
                    && negb (allowed (Payment.status p) target)
            then (Err ConflictingStatus, L)
            else
              match transition env clk p (event_of cb target) with
              | Transitioned p' effs =>
                  match apply_effects env clk p' (packages L) effs
                          (memberships L, ads L) with
                  | Some (ms, adverts) =>
                      (Ok Applied,
                       {| payments := update_first key (fun _ => p') (payments L);
                          memberships := ms;
                          ads := adverts;
                          packages := packages L |})
                  | None => (Err PartialGrantFailure, L)
                  end
              | AlreadyInTarget => (Ok AlreadyApplied, L)
              | Rejected e => (Err (TransitionRejected e), L)
              end
        end
    end.

(** ** Expiration sweeper *)

Definition lapsed (deadline : option datetime) (t : datetime) : bool :=
  match deadline with
  | Some d => d <? t
  | None => false
  end.

(** Modelled from the spec: section 4.4, pending payments past their
    expiry fail. *)
Definition sweep_payment (clk : Clock) (p : Payment.t) : Payment.t :=
  if PaymentStatus.eqb (Payment.status p) PaymentStatus.PENDING
     && lapsed (Payment.expires_at p) (now clk)
  then Payment.set_outcome PaymentStatus.FAILED
         (Payment.midtrans_transaction_id p) (Payment.payment_details p)
         (Payment.paid_at p) p
  else p.

(** Modelled from the spec: section 4.4, active memberships past their end
    date expire; the counters are left as they are. *)
Definition sweep_membership (clk : Clock) (m : UserMembership.t)
  : UserMembership.t :=
  if UserMembership.is_active m && (UserMembership.end_date m <? today clk)
  then UserMembership.set_status MembershipStatus.EXPIRED m
  else m.

(** Modelled from the spec: section 4.4, a lapsed boost is cleared (its
    expiry is kept) and a lapsed listing expires. *)
Definition sweep_ad (clk : Clock) (a : Ad.t) : Ad.t :=
  let a1 :=
    if Ad.is_boosted a && lapsed (Ad.boost_expires_at a) (now clk)
    then Ad.set_boost false (Ad.boost_expires_at a) a
    else a in
  if lapsed (Ad.expires_at a1) (now clk)
  then Ad.set_status AdStatus.EXPIRED a1
  else a1.

Definition sweep (clk : Clock) (L : Ledger) : Ledger :=
  {| payments := map (sweep_payment clk) (payments L);
     memberships := map (sweep_membership clk) (memberships L);
     ads := map (sweep_ad clk) (ads L);
     packages := packages L |}.

(** ** Histories of the tables *)

(** One change of the membership table: a grant of a package that
    [eligible] accepts, a quota or boost-credit consumption on a stored
    row, or a sweep. *)
Inductive membership_step (eligible : MembershipPackage.t -> Prop)
  : list UserMembership.t -> list UserMembership.t -> Prop :=
| ms_grant clk user pkg tbl tbl' :
    eligible pkg ->
    GrantMembership clk user pkg tbl = Some tbl' ->
    membership_step eligible tbl tbl'
| ms_consume_ad before m after m' :
    ConsumeAdQuota m = Ok m' ->
    membership_step eligible (before ++ m :: after) (before ++ m' :: after)
| ms_consume_boost before m after m' :
    ConsumeBoostCredit m = Ok m' ->
    membership_step eligible (before ++ m :: after) (before ++ m' :: after)
| ms_sweep clk tbl :
    membership_step eligible tbl (map (sweep_membership clk) tbl).

(** The membership tables the engine can produce from the empty table. *)
Inductive membership_reachable (eligible : MembershipPackage.t -> Prop)
  : list UserMembership.t -> Prop :=
| mr_empty : membership_reachable eligible []
| mr_step tbl tbl' :
    membership_reachable eligible tbl ->
    membership_step eligible tbl tbl' ->
    membership_reachable eligible tbl'.

(** One change of the payment table: an insert, a transition of the row
    an event addresses, or a sweep. *)
Inductive payment_step : list Payment.t -> list Payment.t -> Prop :=
| ps_insert p tbl tbl' :
    insert_payment p tbl = Ok tbl' ->
    payment_step tbl tbl'
| ps_transition env clk ev p p' effs tbl :
    find (has_order_id (ev_order_id ev)) tbl = Some p ->
    transition env clk p ev = Transitioned p' effs ->
    payment_step tbl
      (update_first (has_order_id (ev_order_id ev)) (fun _ => p') tbl)
| ps_sweep clk tbl :
    payment_step tbl (map (sweep_payment clk) tbl).

Inductive payment_steps : list Payment.t -> list Payment.t -> Prop :=
| pss_refl tbl : payment_steps tbl tbl
| pss_step tbl tbl' tbl'' :
    payment_steps tbl tbl' ->
    payment_step tbl' tbl'' ->
    payment_steps tbl tbl''.

(** ** Properties stated over the tables *)

(** The active memberships of one user. *)
Definition active_of (user : Z) (tbl : list UserMembership.t)
  : list UserMembership.t :=
  filter (superseded_by user) tbl.

Definition at_most_one_active (tbl : list UserMembership.t) : Prop :=
  forall user, (List.length (active_of user tbl) <= 1)%nat.

Definition counters_nonneg (m : UserMembership.t) : Prop :=
  0 <= UserMembership.remaining_ads m
  /\ 0 <= UserMembership.remaining_boost_credits m.

Definition package_nonneg (pkg : MembershipPackage.t) : Prop :=
  0 <= MembershipPackage.max_ads pkg
  /\ 0 <= MembershipPackage.boost_credits pkg.

Definition any_package (pkg : MembershipPackage.t) : Prop := True.

(** [status == completed] if and only if [paid_at] is set. *)
Definition completed_iff_paid (p : Payment.t) : Prop :=
  Payment.status p = PaymentStatus.COMPLETED <-> Payment.paid_at p <> None.

(** The two target columns are used as the payment type prescribes. *)
Definition targets_exclusive (p : Payment.t) : Prop :=
  match Payment.payment_type p with
  | PaymentType.MEMBERSHIP => Payment.boosted_ad_id p = None
  | PaymentType.AD_BOOST => Payment.membership_package_id p = None
  end.

(** ** A concrete deployment, for the scenarios of the specification *)

Module Scenario.
Definition T : datetime := 1700000000000000.

Definition at_day (d : Z) : Clock :=
  {| now := T + timedelta_days d; today := 738000 + d |}.

Definition env : Collaborators :=
  {| verify := fun cb key =>
       match PaymentCallback.signature_key cb with
       | Some k => String.eqb k key
       | None => false
       end;
     secret := "server-key";
     map_status := fun s =>
       if String.eqb s "settlement" then Some PaymentStatus.COMPLETED
       else if String.eqb s "capture" then Some PaymentStatus.COMPLETED
       else if String.eqb s "deny" then Some PaymentStatus.FAILED
       else if String.eqb s "expire" then Some PaymentStatus.FAILED
       else if String.eqb s "cancel" then Some PaymentStatus.CANCELLED
       else if String.eqb s "refund" then Some PaymentStatus.REFUNDED
       else None;
     boost_days := fun p =>
       match dict_get "duration_days" (Payment.payment_details p) with
       | Some (JInt d) => Some d
       | _ => None
       end;
     apply_revoke := fun _ ms adverts => Some (ms, adverts) |}.

Definition rupiah (n : Z) : Decimal := {| coefficient := n; exponent := 0 |}.

Definition gold : MembershipPackage.t :=
  MembershipPackage.init (at_day 0) "Gold" "Thirty days, ten ads"
    (rupiah 150000) 30 10 (Some 1) (Some 2) None None None None None.

Definition membership_order : Payment.t :=
  Payment.set_id (Some 1)
    (create_payment (at_day 0) 7 "ORDER-1" None
       {| PaymentCreate.payment_type := PaymentType.MEMBERSHIP;
          PaymentCreate.membership_package_id := Some 1;
          PaymentCreate.boosted_ad_id := None;
          PaymentCreate.amount := rupiah 150000 |}).

Definition boost_order (i : Z) (order : string) (days : Z) : Payment.t :=
  Payment.init (at_day 0) 7 PaymentType.AD_BOOST (rupiah 25000) order
    (Some i) None (Some 5) None None None None
    (Some [("duration_days", JInt days)]) None None None None.

Definition bicycle : Ad.t :=
  Ad.init (at_day 0) 7 3 "Sepeda bekas" "Sepeda gunung, mulus"
    (Some 5) None None None None None None (Some AdStatus.ACTIVE)
    None None None None None None None None.

Definition ledger : Ledger :=
  {| payments := [membership_order; boost_order 2 "ORDER-2" 7;
                  boost_order 3 "ORDER-3" 3];
     memberships := [];
     ads := [bicycle];
     packages := [gold] |}.

Definition callback (order status : string) : PaymentCallback.t :=
  {| PaymentCallback.order_id := order;
     PaymentCallback.transaction_status := status;
     PaymentCallback.transaction_id := Some "txn-1";
     PaymentCallback.payment_type := Some "bank_transfer";
     PaymentCallback.gross_amount := Some "150000.00";
     PaymentCallback.signature_key := Some "server-key" |}.

(** A package whose quota is negative, which the package schema admits. *)
Definition overdrawn : MembershipPackage.t :=
  MembershipPackage.init (at_day 0) "Overdrawn" "Negative quota"
    (rupiah 0) 30 (-1) (Some 9) None None None None None None.

Definition grant (clk : Clock) (user : Z) (pkg : MembershipPackage.t)
    (tbl : list UserMembership.t) : list UserMembership.t :=
  keyword (GrantMembership clk user pkg tbl) tbl.

(** User 7 buys the gold package on day 0 and again on day 3. *)
Definition granted_once : list UserMembership.t := grant (at_day 0) 7 gold [].

Definition granted_twice : list UserMembership.t :=
  grant (at_day 3) 7 gold granted_once.

Definition insert (p : Payment.t) (tbl : list Payment.t) : list Payment.t :=
  match insert_payment p tbl with
  | Ok tbl' => tbl'
  | Err _ => tbl
  end.

(** Two orders are created, then the first one is settled. *)
Definition payments_created : list Payment.t :=
  insert (boost_order 2 "ORDER-2" 7) (insert membership_order []).

Definition settlement : PaymentEvent :=
  event_of (callback "ORDER-1" "settlement") PaymentStatus.COMPLETED.

Definition settled_order : Payment.t :=
  match transition env (at_day 1) membership_order settlement with
  | Transitioned p' _ => p'
  | _ => membership_order
  end.

Definition payments_settled : list Payment.t :=
  update_first (has_order_id "ORDER-1") (fun _ => settled_order)
    payments_created.
End Scenario.


(** ** The other tables of [app/models.py] *)

(** [len(s)]: a string is kept as the bytes of its UTF-8 text and its
    length is its number of characters, that is, of bytes that do not
    continue a character (the continuation bytes are [10xxxxxx]). *)
Definition continues_character (c : ascii) : bool :=
  match c with
  | Ascii _ _ _ _ _ _ false true => true
  | _ => false
  end.

Fixpoint characters (s : string) : nat :=
  match s with
  | EmptyString => 0%nat
  | String c rest =>
      if continues_character c then characters rest
      else S (characters rest)
  end.

(** [len(s) <= n] for an optional string column or field. *)
Definition opt_length_le (n : nat) (given : option string) : bool :=
  match given with
  | Some s => (characters s <=? n)%nat
  | None => true
  end.

Module User.
Record t : Type := mk {
  id : option Z;
  username : string;
  email : string;
  password_hash : string;
  full_name : string;
  phone : option string;
  role : UserRole.t;
  status : UserStatus.t;
  profile_image : option string;
  created_at : datetime;
  updated_at : datetime
}.

Definition init (clk : Clock) (username email password_hash full_name : string)
    (id : option Z) (phone : option string) (role : option UserRole.t)
    (status : option UserStatus.t) (profile_image : option string)
    (created_at updated_at : option datetime) : t :=
  {| id := id;
     username := username;
     email := email;
     password_hash := password_hash;
     full_name := full_name;
     phone := phone;
     role := keyword role UserRole.USER;
     status := keyword status UserStatus.ACTIVE;
     profile_image := profile_image;
     created_at := keyword created_at (now clk);
     updated_at := keyword updated_at (now clk) |}.

Definition set_id (i : option Z) (u : t) : t :=
  {| id := i; username := username u; email := email u;
     password_hash := password_hash u; full_name := full_name u;
     phone := phone u; role := role u; status := status u;
     profile_image := profile_image u;
     created_at := created_at u; updated_at := updated_at u |}.

(** The [max_length] of each string column. *)
Definition fits_columns (u : t) : bool :=
  (characters (username u) <=? 50)%nat
  && (characters (email u) <=? 255)%nat
  && (characters (password_hash u) <=? 255)%nat
  && (characters (full_name u) <=? 100)%nat
  && opt_length_le 20 (phone u)
  && opt_length_le 500 (profile_image u).
End User.

Module Category.
Record t : Type := mk {
  id : option Z;
  name : string;
  description : option string;
  icon : option string;
  is_active : bool;
  sort_order : Z;
  created_at : datetime
}.

Definition init (clk : Clock) (name : string) (id : option Z)
    (description icon : option string) (is_active : option bool)
    (sort_order : option Z) (created_at : option datetime) : t :=
  {| id := id;
     name := name;
     description := description;
     icon := icon;
     is_active := keyword is_active true;
     sort_order := keyword sort_order 0;
     created_at := keyword created_at (now clk) |}.

Definition set_id (i : option Z) (c : t) : t :=
  {| id := i; name := name c; description := description c; icon := icon c;
     is_active := is_active c; sort_order := sort_order c;
     created_at := created_at c |}.

Definition fits_columns (c : t) : bool :=
  (characters (name c) <=? 100)%nat
  && opt_length_le 500 (description c)
  && opt_length_le 100 (icon c).
End Category.

Module AdStatistic.
Record t : Type := mk {
  id : option Z;
  ad_id : Z;
  user_id : Z;
  date : date;
  views : Z;
  contacts : Z;
  created_at : datetime
}.

Definition init (clk : Clock) (ad_id user_id : Z) (id : option Z)
    (date : option Z) (views contacts : option Z)
    (created_at : option datetime) : t :=
  {| id := id;
     ad_id := ad_id;
     user_id := user_id;
     date := keyword date (today clk);
     views := keyword views 0;
     contacts := keyword contacts 0;
     created_at := keyword created_at (now clk) |}.

Definition set_id (i : option Z) (r : t) : t :=
  {| id := i; ad_id := ad_id r; user_id := user_id r; date := date r;
     views := views r; contacts := contacts r; created_at := created_at r |}.
End AdStatistic.

Module SystemSetting.
Record t : Type := mk {
  id : option Z;
  key : string;
  value : string;
  description : option string;
  is_public : bool;
  created_at : datetime;
  updated_at : datetime
}.

Definition init (clk : Clock) (key value : string) (id : option Z)
    (description : option string) (is_public : option bool)
    (created_at updated_at : option datetime) : t :=
  {| id := id;
     key := key;
     value := value;
     description := description;
     is_public := keyword is_public false;
     created_at := keyword created_at (now clk);
     updated_at := keyword updated_at (now clk) |}.

Definition set_id (i : option Z) (r : t) : t :=
  {| id := i; key := key r; value := value r; description := description r;
     is_public := is_public r;
     created_at := created_at r; updated_at := updated_at r |}.
End SystemSetting.

Definition UserMembership_set_id (i : option Z) (m : UserMembership.t)
  : UserMembership.t :=
  {| UserMembership.id := i;
     UserMembership.user_id := UserMembership.user_id m;
     UserMembership.package_id := UserMembership.package_id m;
     UserMembership.status := UserMembership.status m;
     UserMembership.start_date := UserMembership.start_date m;
     UserMembership.end_date := UserMembership.end_date m;
     UserMembership.remaining_boost_credits :=
       UserMembership.remaining_boost_credits m;
     UserMembership.remaining_ads := UserMembership.remaining_ads m;
     UserMembership.auto_renew := UserMembership.auto_renew m;
     UserMembership.created_at := UserMembership.created_at m;
     UserMembership.updated_at := UserMembership.updated_at m |}.

(** ** Constraints that the tables declare

    What INSERT checks for a table: the primary key ([primary_key=True],
    auto-incremented when the row carries none, to one more than the
    largest key stored) and the columns declared [unique=True], by
    name. *)
Record TableSpec (Row : Type) : Type := mkTableSpec {
  pk : Row -> option Z;
  set_pk : option Z -> Row -> Row;
  unique_columns : list (string * (Row -> string))
}.

(** Does a stored row already have the value of [r] in the column? *)
Definition column_taken {Row : Type} (tbl : list Row) (r : Row)
    (col : string * (Row -> string)) : bool :=
  existsb (fun q => String.eqb (snd col q) (snd col r)) tbl.

Definition insert_row {Row : Type} (spec : TableSpec Row) (r : Row)
    (tbl : list Row) : result StoreError (list Row) :=
  let i := keyword (pk spec r) (next_id (map (pk spec) tbl)) in
  if existsb (fun q => opt_Z_eqb (pk spec q) (Some i)) tbl
  then Err (IntegrityError "id")
  else match find (column_taken tbl r) (unique_columns spec) with
       | Some col => Err (IntegrityError (fst col))
       | None => Ok (tbl ++ [set_pk spec (Some i) r])
       end.

(** The tables built from the empty table by successful inserts. *)
Inductive inserted {Row : Type} (spec : TableSpec Row) : list Row -> Prop :=
| ins_empty : inserted spec []
| ins_row r tbl tbl' :
    inserted spec tbl ->
    insert_row spec r tbl = Ok tbl' ->
    inserted spec tbl'.

Definition users_table : TableSpec User.t :=
  {| pk := User.id; set_pk := User.set_id;
     unique_columns := [("username", User.username); ("email", User.email)] |}.

Definition categories_table : TableSpec Category.t :=
  {| pk := Category.id; set_pk := Category.set_id;
     unique_columns := [("name", Category.name)] |}.

Definition system_settings_table : TableSpec SystemSetting.t :=
  {| pk := SystemSetting.id; set_pk := SystemSetting.set_id;
     unique_columns := [("key", SystemSetting.key)] |}.

Definition payments_table : TableSpec Payment.t :=
  {| pk := Payment.id; set_pk := Payment.set_id;
     unique_columns := [("midtrans_order_id", Payment.midtrans_order_id)] |}.

Definition user_memberships_table : TableSpec UserMembership.t :=
  {| pk := UserMembership.id; set_pk := UserMembership_set_id;
     unique_columns := [] |}.

Definition ad_statistics_table : TableSpec AdStatistic.t :=
  {| pk := AdStatistic.id; set_pk := AdStatistic.set_id;
     unique_columns := [] |}.

(** A table spec is well formed when storing the key changes neither the
    other key nor a unique column. *)
Definition lawful {Row : Type} (spec : TableSpec Row) : Prop :=
  (forall i r, pk spec (set_pk spec i r) = i)
  /\ (forall i r col, In col (unique_columns spec) ->
                      snd col (set_pk spec i r) = snd col r).

(** ** The other request schemas

    As before the keyword arguments are given with their Python types.
    For a field that declares a default other than [None]
    ([sort_order: int = 0], [price_negotiable: bool = False],
    [images: List[str] = []], ...) [None] stands for the omitted keyword
    only: such a field is not [Optional], and an explicit [None] is not
    among the inputs represented. *)

Inductive FieldError : Set :=
| Invalid (kind : ErrorKind)
| StringTooShort (min_length : nat)
| StringTooLong (max_length : nat)
| DecimalConstraint (max_digits decimal_places : nat).

Definition FieldErrors : Type := list (string * FieldError).

(** [Field(min_length=lo, max_length=hi)] on a string ([lo = 0] when the
    field declares no minimum); both bounds count characters. *)
Definition check_length (field : string) (lo hi : nat) (s : string)
  : FieldErrors :=
  if (characters s <? lo)%nat then [(field, StringTooShort lo)]
  else if (hi <? characters s)%nat then [(field, StringTooLong hi)]
  else [].

(** A required [str] field. *)
Definition str_field (field : string) (lo hi : nat) (given : option string)
  : FieldErrors :=
  match given with
  | Some s => check_length field lo hi s
  | None => [(field, Invalid Missing)]
  end.

(** An [Optional[str] = Field(default=None, max_length=hi)] field. *)
Definition opt_str_field (field : string) (hi : nat) (given : option string)
  : FieldErrors :=
  match given with
  | Some s => check_length field 0 hi s
  | None => []
  end.

(** A required field without constraint. *)
Definition plain_field {A : Type} (field : string) (given : option A)
  : FieldErrors :=
  match given with
  | Some _ => []
  | None => [(field, Invalid Missing)]
  end.

(** The check that [max_digits] and [decimal_places] ask of a [Decimal]
    belongs to the validation library; it is the parameter [fits] of the
    schemas that have a decimal field. *)
Definition DecimalCheck : Type := nat -> nat -> Decimal -> bool.

Definition decimal_field (fits : DecimalCheck) (field : string)
    (max_digits decimal_places : nat) (given : option Decimal)
  : FieldErrors :=
  match given with
  | Some d => if fits max_digits decimal_places d then []
              else [(field, DecimalConstraint max_digits decimal_places)]
  | None => [(field, Invalid Missing)]
  end.

Definition opt_decimal_field (fits : DecimalCheck) (field : string)
    (max_digits decimal_places : nat) (given : option Decimal)
  : FieldErrors :=
  match given with
  | Some d => if fits max_digits decimal_places d then []
              else [(field, DecimalConstraint max_digits decimal_places)]
  | None => []
  end.

Module UserCreate.
Record t : Type := mk {
  username : string;
  email : string;
  password : string;
  full_name : string;
  phone : option string
}.

Definition errors (username email password full_name phone : option string)
  : FieldErrors :=
  str_field "username" 0 50 username
  ++ str_field "email" 0 255 email
  ++ str_field "password" 8 100 password
  ++ str_field "full_name" 0 100 full_name
  ++ opt_str_field "phone" 20 phone.

Definition validate (username email password full_name phone : option string)
  : result FieldErrors t :=
  match username, email, password, full_name,
        errors username email password full_name phone with
  | Some u, Some e, Some p, Some f, [] =>
      Ok {| username := u; email := e; password := p; full_name := f;
            phone := phone |}
  | _, _, _, _, errs => Err errs
  end.
End UserCreate.

Module UserUpdate.
Record t : Type := mk {
  username : option string;
  email : option string;
  full_name : option string;
  phone : option string;
  profile_image : option string
}.

Definition errors (username email full_name phone profile_image
    : option string) : FieldErrors :=
  opt_str_field "username" 50 username
  ++ opt_str_field "email" 255 email
  ++ opt_str_field "full_name" 100 full_name
  ++ opt_str_field "phone" 20 phone
  ++ opt_str_field "profile_image" 500 profile_image.

Definition validate (username email full_name phone profile_image
    : option string) : result FieldErrors t :=
  match errors username email full_name phone profile_image with
  | [] => Ok {| username := username; email := email;
                full_name := full_name; phone := phone;
                profile_image := profile_image |}
  | errs => Err errs
  end.
End UserUpdate.

Module UserLogin.
Record t : Type := mk { username : string; password : string }.

Definition errors (username password : option string) : FieldErrors :=
  str_field "username" 0 50 username ++ str_field "password" 0 100 password.

Definition validate (username password : option string)
  : result FieldErrors t :=
  match username, password, errors username password with
  | Some u, Some p, [] => Ok {| username := u; password := p |}
  | _, _, errs => Err errs
  end.
End UserLogin.

Module CategoryCreate.
Record t : Type := mk {
  name : string;
  description : option string;
  icon : option string;
  sort_order : Z
}.

Definition errors (name description icon : option string) : FieldErrors :=
  str_field "name" 0 100 name
  ++ opt_str_field "description" 500 description
  ++ opt_str_field "icon" 100 icon.

Definition validate (name description icon : option string)
    (sort_order : option Z) : result FieldErrors t :=
  match name, errors name description icon with
  | Some n, [] => Ok {| name := n; description := description; icon := icon;
                        sort_order := keyword sort_order 0 |}
  | _, errs => Err errs
  end.
End CategoryCreate.

Module CategoryUpdate.
Record t : Type := mk {
  name : option string;
  description : option string;
  icon : option string;
  is_active : option bool;
  sort_order : option Z
}.

Definition errors (name description icon : option string) : FieldErrors :=
  opt_str_field "name" 100 name
  ++ opt_str_field "description" 500 description
  ++ opt_str_field "icon" 100 icon.

Definition validate (name description icon : option string)
    (is_active : option bool) (sort_order : option Z)
  : result FieldErrors t :=
  match errors name description icon with
  | [] => Ok {| name := name; description := description; icon := icon;
                is_active := is_active; sort_order := sort_order |}
  | errs => Err errs
  end.
End CategoryUpdate.

Module MembershipPackageCreate.
Record t : Type := mk {
  name : string;
  description : string;
  price : Decimal;
  duration_days : Z;
  max_ads : Z;
  boost_credits : Z;
  priority_support : bool;
  features : json_dict
}.

Definition errors (fits : DecimalCheck) (name description : option string)
    (price : option Decimal) (duration_days max_ads : option Z)
  : FieldErrors :=
  str_field "name" 0 100 name
  ++ str_field "description" 0 1000 description
  ++ decimal_field fits "price" 10 2 price
  ++ plain_field "duration_days" duration_days
  ++ plain_field "max_ads" max_ads.

Definition validate (fits : DecimalCheck) (name description : option string)
    (price : option Decimal) (duration_days max_ads boost_credits : option Z)
    (priority_support : option bool) (features : option json_dict)
  : result FieldErrors t :=
  match name, description, price, duration_days, max_ads,
        errors fits name description price duration_days max_ads with
  | Some n, Some d, Some p, Some dd, Some ma, [] =>
      Ok {| name := n; description := d; price := p;
            duration_days := dd; max_ads := ma;
            boost_credits := keyword boost_credits 0;
            priority_support := keyword priority_support false;
            features := keyword features [] |}
  | _, _, _, _, _, errs => Err errs
  end.
End MembershipPackageCreate.

Module AdCreate.
Record t : Type := mk {
  category_id : Z;
  title : string;
  description : string;
  price : option Decimal;
  price_negotiable : bool;
  location : option string;
  contact_info : option string;
  images : list string;
  tags : list string
}.

Definition errors (fits : DecimalCheck) (category_id : option Z)
    (title description : option string) (price : option Decimal)
    (location contact_info : option string) : FieldErrors :=
  plain_field "category_id" category_id
  ++ str_field "title" 0 200 title
  ++ str_field "description" 0 5000 description
  ++ opt_decimal_field fits "price" 15 2 price
  ++ opt_str_field "location" 200 location
  ++ opt_str_field "contact_info" 500 contact_info.

Definition validate (fits : DecimalCheck) (category_id : option Z)
    (title description : option string) (price : option Decimal)
    (price_negotiable : option bool) (location contact_info : option string)
    (images tags : option (list string)) : result FieldErrors t :=
  match category_id, title, description,
        errors fits category_id title description price location
          contact_info with
  | Some c, Some t, Some d, [] =>
      Ok {| category_id := c; title := t; description := d; price := price;
            price_negotiable := keyword price_negotiable false;
            location := location; contact_info := contact_info;
            images := keyword images []; tags := keyword tags [] |}
  | _, _, _, errs => Err errs
  end.
End AdCreate.

Module AdUpdate.
Record t : Type := mk {
  category_id : option Z;
  title : option string;
  description : option string;
  price : option Decimal;
  price_negotiable : option bool;
  location : option string;
  contact_info : option string;
  images : option (list string);
  tags : option (list string);
  status : option AdStatus.t
}.

Definition errors (fits : DecimalCheck) (title description : option string)
    (price : option Decimal) (location contact_info : option string)
  : FieldErrors :=
  opt_str_field "title" 200 title
  ++ opt_str_field "description" 5000 description
  ++ opt_decimal_field fits "price" 15 2 price
  ++ opt_str_field "location" 200 location
  ++ opt_str_field "contact_info" 500 contact_info.

Definition validate (fits : DecimalCheck) (category_id : option Z)
    (title description : option string) (price : option Decimal)
    (price_negotiable : option bool) (location contact_info : option string)
    (images tags : option (list string)) (status : option AdStatus.t)
  : result FieldErrors t :=
  match errors fits title description price location contact_info with
  | [] => Ok {| category_id := category_id; title := title;
                description := description; price := price;
                price_negotiable := price_negotiable;
                location := location; contact_info := contact_info;
                images := images; tags := tags; status := status |}
  | errs => Err errs
  end.
End AdUpdate.

(** Validation of a [PaymentCreate]: the type and the amount are
    required, the amount within 12 digits and 2 places; the two target
    ids are optional and default to [None]. *)
Definition PaymentCreate_validate (fits : DecimalCheck)
    (payment_type : option PaymentType.t)
    (membership_package_id boosted_ad_id : option Z)
    (amount : option Decimal) : result FieldErrors PaymentCreate.t :=
  match payment_type, amount,
        plain_field "payment_type" payment_type
        ++ decimal_field fits "amount" 12 2 amount with
  | Some ty, Some a, [] =>
      Ok {| PaymentCreate.payment_type := ty;
            PaymentCreate.membership_package_id := membership_package_id;
            PaymentCreate.boosted_ad_id := boosted_ad_id;
            PaymentCreate.amount := a |}
  | _, _, errs => Err errs
  end.

(** The string and decimal limits of the [ads] columns. *)
Definition Ad_fits_columns (fits : DecimalCheck) (a : Ad.t) : bool :=
  (characters (Ad.title a) <=? 200)%nat
  && (characters (Ad.description a) <=? 5000)%nat
  && match Ad.price a with
     | Some d => fits 15%nat 2%nat d
     | None => true
     end
  && opt_length_le 200 (Ad.location a)
  && opt_length_le 500 (Ad.contact_info a).

(** ** Rows and requests used as examples *)

Module Fixtures.
Definition clk : Clock := {| now := 1700000000000000; today := 738000 |}.

(** A decimal check for the examples: at most [max_digits] digits in the
    coefficient and at most [decimal_places] places after the point. *)
Definition fits : DecimalCheck :=
  fun max_digits decimal_places d =>
    (Z.abs (coefficient d) <? 10 ^ Z.of_nat max_digits)
    && (- Z.of_nat decimal_places <=? exponent d)
    && (exponent d <=? 0).

Definition budi : User.t :=
  User.init clk "budi" "budi@example.com" "pbkdf2$hash" "Budi Santoso"
    None (Some "0812000111") None None None None None.

Definition sari : User.t :=
  User.init clk "sari" "sari@example.com" "pbkdf2$hash" "Sari Dewi"
    None None None None None None None.

Definition users : list User.t :=
  match insert_row users_table budi [] with
  | Ok t1 => match insert_row users_table sari t1 with
             | Ok t2 => t2
             | Err _ => t1
             end
  | Err _ => []
  end.

Definition order (oid : string) : Payment.t :=
  Payment.init clk 1 PaymentType.MEMBERSHIP
    {| coefficient := 150000; exponent := 0 |} oid
    None (Some 1) None None None None None None None None None None.

Definition orders : list Payment.t :=
  match insert_payment (order "ORDER-A") [] with
  | Ok t1 => t1
  | Err _ => []
  end.

Definition membership (user : Z) : UserMembership.t :=
  UserMembership.init clk user 1 738030 None None None None None None
    None None.

Definition vehicles : Category.t :=
  Category.init clk "Kendaraan" None (Some "Mobil, motor, sepeda") None
    None None None.

Definition categories : list Category.t :=
  match insert_row categories_table vehicles [] with
  | Ok t1 => t1
  | Err _ => []
  end.

Definition site_name : SystemSetting.t :=
  SystemSetting.init clk "site_name" "Iklan Baris" None None (Some true)
    None None.

Definition settings : list SystemSetting.t :=
  match insert_row system_settings_table site_name [] with
  | Ok t1 => t1
  | Err _ => []
  end.

Definition registration : UserCreate.t :=
  {| UserCreate.username := "budi"; UserCreate.email := "budi@example.com";
     UserCreate.password := "rahasia123";
     UserCreate.full_name := "Budi Santoso";
     UserCreate.phone := Some "0812000111" |}.

Definition new_category : CategoryCreate.t :=
  {| CategoryCreate.name := "Kendaraan";
     CategoryCreate.description := Some "Mobil, motor, sepeda";
     CategoryCreate.icon := None; CategoryCreate.sort_order := 0 |}.

Definition new_ad : AdCreate.t :=
  {| AdCreate.category_id := 3; AdCreate.title := "Sepeda bekas";
     AdCreate.description := "Sepeda gunung, mulus";
     AdCreate.price := Some {| coefficient := 125000000; exponent := -2 |};
     AdCreate.price_negotiable := true;
     AdCreate.location := Some "Bandung"; AdCreate.contact_info := None;
     AdCreate.images := []; AdCreate.tags := ["sepeda"] |}.
End Fixtures.

(** * Properties *)

(** ** Request validation *)

(** C10: an [AdBoost] request is accepted exactly when it names an ad and
    its duration lies between 1 and 30 days inclusive; the accepted value
    carries that duration, and a duration of 0 or below, or of 31 or
    above, is rejected with an error on [duration_days]. *)
Theorem adboost_duration_between_1_and_30 (ad_id duration_days : option Z) :
  match AdBoost.validate ad_id duration_days with
  | Ok b =>
      ad_id = Some (AdBoost.ad_id b)
      /\ duration_days = Some (AdBoost.duration_days b)
      /\ 1 <= AdBoost.duration_days b <= 30
  | Err errors =>
      errors <> []
      /\ (ad_id = None \/ duration_days = None
          \/ exists d, duration_days = Some d /\ (d <= 0 \/ 31 <= d)
                       /\ exists kind, In ("duration_days", kind) errors)
  end.
Proof.
  unfold AdBoost.validate, AdBoost.check_duration_days.
  destruct ad_id as [a|], duration_days as [d|]; simpl.
  - destruct (Z.ltb_spec d 1), (Z.ltb_spec 30 d); simpl; try lia.
    + split; [discriminate|]. right; right. exists d.
      repeat split; [lia|]. eexists; left; reflexivity.
    + split; [discriminate|]. right; right. exists d.
      repeat split; [lia|]. eexists; left; reflexivity.
    + repeat split; lia.
  - split; [discriminate | tauto].
  - split; [discriminate | tauto].
  - split; [discriminate | tauto].
Qed.

(** C7 (counterexample): a callback that gives only [order_id] and
    [transaction_status] is accepted, with [signature_key] stored as
    [None]. *)
Lemma callback_without_signature_key_accepted :
  exists cb,
    PaymentCallback.validate (Some "ORDER-1") (Some "settlement")
      None None None None = Ok cb
    /\ PaymentCallback.signature_key cb = None.
Proof. eexists; split; reflexivity. Qed.

(** C7 (amended): [signature_key] is an optional string of the callback
    that defaults to [None]: a callback is accepted exactly when
    [order_id] and [transaction_status] are given, whatever the
    [signature_key], and the accepted value stores the key as given. *)
Theorem callback_signature_key_optional
    (order_id transaction_status transaction_id payment_type gross_amount
       signature_key : option string) :
  match PaymentCallback.validate order_id transaction_status transaction_id
          payment_type gross_amount signature_key with
  | Ok cb =>
      order_id = Some (PaymentCallback.order_id cb)
      /\ transaction_status = Some (PaymentCallback.transaction_status cb)
      /\ PaymentCallback.signature_key cb = signature_key
  | Err errors =>
      (order_id = None \/ transaction_status = None)
      /\ ~ In "signature_key" (map fst errors)
  end.
Proof.
  unfold PaymentCallback.validate.
  destruct order_id, transaction_status; simpl;
    try (repeat split; reflexivity);
    (split; [tauto|]); intros H;
    repeat (destruct H as [H|H]; [discriminate H|]); exact H.
Qed.

(** ** The Payment row *)

(** C2 (counterexample): a Payment built with [status=completed] and no
    [paid_at] is a Payment whose status is completed while [paid_at] is
    unset. *)
Lemma completed_payment_without_paid_at :
  let p :=
    Payment.init (Scenario.at_day 0) 7 PaymentType.MEMBERSHIP
      (Scenario.rupiah 150000) "ORDER-1"
      None (Some 1) None None (Some PaymentStatus.COMPLETED)
      None None None None None None None in
  Payment.status p = PaymentStatus.COMPLETED
  /\ Payment.paid_at p = None
  /\ ~ completed_iff_paid p.
Proof.
  cbv zeta. repeat split.
  intros [H _]. now apply H.
Qed.

(** C2 (amended): a Payment built with [status] and [paid_at] left at
    their defaults is pending with [paid_at] unset, so
    [status == completed <=> paid_at is set] holds for it; a Payment built
    with explicit values satisfies it exactly when the values given
    agree, since the class ties the two columns by no validator. *)
Theorem payment_completed_iff_paid_at_construction
    (clk : Clock) (user_id : Z) (payment_type : PaymentType.t)
    (amount : Decimal) (order_id : string)
    (id membership_package_id boosted_ad_id : option Z)
    (currency : option string) (status : option PaymentStatus.t)
    (txn method : option string) (details : option json_dict)
    (paid_at expires_at created_at updated_at : option datetime) :
  let fresh :=
    Payment.init clk user_id payment_type amount order_id
      id membership_package_id boosted_ad_id currency None
      txn method details None expires_at created_at updated_at in
  let p :=
    Payment.init clk user_id payment_type amount order_id
      id membership_package_id boosted_ad_id currency status
      txn method details paid_at expires_at created_at updated_at in
  (Payment.status fresh = PaymentStatus.PENDING
   /\ Payment.paid_at fresh = None
   /\ completed_iff_paid fresh)
  /\ (completed_iff_paid p <->
      (keyword status PaymentStatus.PENDING = PaymentStatus.COMPLETED
       <-> paid_at <> None)).
Proof.
  cbv zeta. unfold completed_iff_paid; simpl.
  split; [|tauto].
  repeat split; [discriminate | intro H; now contradiction H].
Qed.

(** C9 (counterexample): a membership Payment can carry both a package id
    and an ad id. *)
Lemma membership_payment_with_both_targets :
  let p :=
    Payment.init (Scenario.at_day 0) 7 PaymentType.MEMBERSHIP
      (Scenario.rupiah 150000) "ORDER-1"
      None (Some 1) (Some 5) None None None None None None None
      None None in
  Payment.payment_type p = PaymentType.MEMBERSHIP
  /\ Payment.membership_package_id p = Some 1
  /\ Payment.boosted_ad_id p = Some 5
  /\ ~ targets_exclusive p.
Proof.
  cbv zeta. repeat split. unfold targets_exclusive; simpl. discriminate.
Qed.

(** C9 (amended): [membership_package_id] and [boosted_ad_id] are two
    independent optional columns of a Payment: for either payment type the
    row stores both exactly as given (unset when omitted), so they are
    exclusive per payment type exactly when the caller gives them so. *)
Theorem payment_targets_stored_as_given
    (clk : Clock) (user_id : Z) (payment_type : PaymentType.t)
    (amount : Decimal) (order_id : string)
    (id membership_package_id boosted_ad_id : option Z)
    (currency : option string) (status : option PaymentStatus.t)
    (txn method : option string) (details : option json_dict)
    (paid_at expires_at created_at updated_at : option datetime) :
  let p :=
    Payment.init clk user_id payment_type amount order_id
      id membership_package_id boosted_ad_id currency status
      txn method details paid_at expires_at created_at updated_at in
  Payment.payment_type p = payment_type
  /\ Payment.membership_package_id p = membership_package_id
  /\ Payment.boosted_ad_id p = boosted_ad_id
  /\ (targets_exclusive p <->
      match payment_type with
      | PaymentType.MEMBERSHIP => boosted_ad_id = None
      | PaymentType.AD_BOOST => membership_package_id = None
      end).
Proof.
  cbv zeta. unfold targets_exclusive; simpl.
  repeat split; destruct payment_type; auto.
Qed.

(** ** Payment state machine *)

Lemma PaymentStatus_eqb_eq (a b : PaymentStatus.t) :
  PaymentStatus.eqb a b = true <-> a = b.
Proof. destruct a, b; simpl; split; congruence. Qed.

Lemma allowed_cases (from to : PaymentStatus.t) :
  allowed from to = true ->
  (from = PaymentStatus.PENDING
   /\ (to = PaymentStatus.COMPLETED \/ to = PaymentStatus.FAILED
       \/ to = PaymentStatus.CANCELLED))
  \/ (from = PaymentStatus.COMPLETED /\ to = PaymentStatus.REFUNDED).
Proof. destruct from, to; simpl; intro H; try discriminate H; tauto. Qed.

Lemma allowed_target_terminal (from to : PaymentStatus.t) :
  allowed from to = true -> is_terminal to = true.
Proof. destruct from, to; simpl; intro H; try discriminate H; reflexivity. Qed.

(** What a successful transition returns. *)
Lemma transition_Transitioned env clk p ev p' effs :
  transition env clk p ev = Transitioned p' effs ->
  has_order_id (ev_order_id ev) p = true
  /\ allowed (Payment.status p) (ev_target ev) = true
  /\ Payment.status p' = ev_target ev
  /\ Payment.midtrans_order_id p' = Payment.midtrans_order_id p
  /\ Payment.id p' = Payment.id p
  /\ Payment.user_id p' = Payment.user_id p
  /\ effs = effects_of env p (ev_target ev)
  /\ Payment.paid_at p' =
     match ev_target ev with
     | PaymentStatus.COMPLETED => Some (keyword (ev_paid_at ev) (now clk))
     | _ => Payment.paid_at p
     end.
Proof.
  unfold transition.
  destruct (has_order_id (ev_order_id ev) p); simpl; [|discriminate].
  destruct (PaymentStatus.eqb (Payment.status p) (ev_target ev)
            && is_terminal (ev_target ev)); [discriminate|].
  destruct (allowed (Payment.status p) (ev_target ev)); [|discriminate].
  intro H; injection H as <- <-. simpl. repeat split.
Qed.

Lemma sweep_payment_cases clk p :
  sweep_payment clk p = p
  \/ (Payment.status p = PaymentStatus.PENDING
      /\ Payment.status (sweep_payment clk p) = PaymentStatus.FAILED
      /\ Payment.paid_at (sweep_payment clk p) = Payment.paid_at p).
Proof.
  unfold sweep_payment.
  destruct (PaymentStatus.eqb (Payment.status p) PaymentStatus.PENDING) eqn:E;
    simpl; [|now left].
  destruct (lapsed (Payment.expires_at p) (now clk)); [|now left].
  right. apply PaymentStatus_eqb_eq in E. auto.
Qed.

(** C8: a Payment created by the checkout flow is pending with [paid_at]
    unset; a transition of the state machine leads from pending to
    completed, failed or cancelled, or from completed to refunded, and to
    nothing else (each of these four is taken when requested); the sweep
    only moves a pending payment to failed. *)
Theorem payment_lifecycle :
  (forall clk user_id order_id expires_at req,
      let p := create_payment clk user_id order_id expires_at req in
      Payment.status p = PaymentStatus.PENDING /\ Payment.paid_at p = None)
  /\ (forall env clk p ev p' effs,
         transition env clk p ev = Transitioned p' effs ->
         (Payment.status p = PaymentStatus.PENDING
          /\ (Payment.status p' = PaymentStatus.COMPLETED
              \/ Payment.status p' = PaymentStatus.FAILED
              \/ Payment.status p' = PaymentStatus.CANCELLED))
         \/ (Payment.status p = PaymentStatus.COMPLETED
             /\ Payment.status p' = PaymentStatus.REFUNDED))
  /\ (forall env clk p ev,
         ev_order_id ev = Payment.midtrans_order_id p ->
         allowed (Payment.status p) (ev_target ev) = true ->
         exists p' effs,
           transition env clk p ev = Transitioned p' effs
           /\ Payment.status p' = ev_target ev)
  /\ (forall clk p,
         Payment.status (sweep_payment clk p) = Payment.status p
         \/ (Payment.status p = PaymentStatus.PENDING
             /\ Payment.status (sweep_payment clk p) = PaymentStatus.FAILED)).
Proof.
  repeat split.
  - intros env clk p ev p' effs H.
    apply transition_Transitioned in H as (_ & Hal & Hst & _).
    rewrite Hst. now apply allowed_cases.
  - intros env clk p ev Hid Hal. unfold transition, has_order_id.
    rewrite Hid, String.eqb_refl. simpl.
    replace (PaymentStatus.eqb (Payment.status p) (ev_target ev)) with false.
    + simpl. rewrite Hal. eexists; eexists; split; reflexivity.
    + destruct (Payment.status p), (ev_target ev); simpl in *; congruence.
  - intros clk p. destruct (sweep_payment_cases clk p) as [-> | (H1 & H2 & _)];
      auto.
Qed.

(** ** Quota ledger: boosts *)

(** C6: [ExtendBoost] sets [is_boosted] and moves [boost_expires_at] to
    [max(now, current expiry) + days] (counted from [now] when the ad has
    no expiry), leaving the other columns alone; an unexpired boost is
    extended from its expiry and not from [now]; and a 3-day boost at
    [T+5d] on top of a 7-day boost taken at [T] expires at [T+10d]. *)
Theorem extend_boost_stacks (clk : Clock) (days : Z) (a : Ad.t) :
  let a' := ExtendBoost clk days a in
  Ad.is_boosted a' = true
  /\ Ad.boost_expires_at a' =
     Some (Z.max (now clk) (keyword (Ad.boost_expires_at a) (now clk))
           + timedelta_days days)
  /\ (Ad.id a' = Ad.id a /\ Ad.status a' = Ad.status a
      /\ Ad.expires_at a' = Ad.expires_at a)
  /\ (forall expiry,
         Ad.boost_expires_at a = Some expiry -> now clk < expiry ->
         Ad.boost_expires_at a' = Some (expiry + timedelta_days days)
         /\ expiry + timedelta_days days <> now clk + timedelta_days days)
  /\ (forall later,
         now later = now clk + timedelta_days 5 ->
         (forall expiry, Ad.boost_expires_at a = Some expiry ->
                         expiry <= now clk) ->
         Ad.boost_expires_at (ExtendBoost later 3 (ExtendBoost clk 7 a))
         = Some (now clk + timedelta_days 10)).
Proof.
  cbv zeta. unfold ExtendBoost. simpl.
  split; [reflexivity|]. split.
  { destruct (Ad.boost_expires_at a); simpl; [reflexivity|].
    now rewrite Z.max_id. }
  split; [repeat split|]. split.
  - intros expiry He Hlt. rewrite He. split; [f_equal|]; lia.
  - intros later Hlater Hold. rewrite Hlater. f_equal.
    destruct (Ad.boost_expires_at a) as [e|]; simpl in *.
    + specialize (Hold e eq_refl). lia.
    + lia.
Qed.

(** ** Quota ledger: memberships *)

Lemma MembershipStatus_eqb_eq (a b : MembershipStatus.t) :
  MembershipStatus.eqb a b = true <-> a = b.
Proof. destruct a, b; simpl; split; congruence. Qed.

Lemma superseded_by_inactive user other m :
  superseded_by user
    (UserMembership.set_status MembershipStatus.INACTIVE m) = false
  /\ (superseded_by other m = true -> user <> other ->
      superseded_by user m = false).
Proof.
  unfold superseded_by, UserMembership.is_active; simpl. split.
  - apply andb_false_r.
  - intros H Hne. apply andb_true_iff in H as [H _].
    apply Z.eqb_eq in H. apply andb_false_iff; left.
    apply Z.eqb_neq. congruence.
Qed.

(** After the superseding pass the granted user has no active membership
    and every other user has the ones it had. *)
Lemma active_of_superseded user other tbl :
  active_of user
    (map (fun m => if superseded_by other m
                   then UserMembership.set_status MembershipStatus.INACTIVE m
                   else m) tbl)
  = if user =? other then [] else active_of user tbl.
Proof.
  unfold active_of.
  induction tbl as [|m tbl IH]; simpl.
  - now destruct (user =? other).
  - destruct (superseded_by other m) eqn:Hm.
    + destruct (superseded_by_inactive user other m) as [-> Hother].
      rewrite IH. destruct (Z.eqb_spec user other) as [->|Hne]; [reflexivity|].
      now rewrite (Hother Hm Hne).
    + rewrite IH. destruct (Z.eqb_spec user other) as [->|Hne].
      * now rewrite Hm.
      * reflexivity.
Qed.

Lemma GrantMembership_inv clk user pkg tbl tbl' :
  GrantMembership clk user pkg tbl = Some tbl' ->
  exists pid,
    MembershipPackage.id pkg = Some pid
    /\ tbl' =
       map (fun m => if superseded_by user m
                     then UserMembership.set_status MembershipStatus.INACTIVE m
                     else m) tbl
       ++ [UserMembership.init clk user pid
             (today clk + MembershipPackage.duration_days pkg)
             (Some (next_id (map UserMembership.id tbl)))
             None (Some (today clk))
             (Some (MembershipPackage.boost_credits pkg))
             (Some (MembershipPackage.max_ads pkg))
             None None None].
Proof.
  unfold GrantMembership. destruct (MembershipPackage.id pkg) as [pid|];
    [|discriminate].
  intro H; injection H as <-. now exists pid.
Qed.

Lemma active_of_app user (l1 l2 : list UserMembership.t) :
  active_of user (l1 ++ l2) = active_of user l1 ++ active_of user l2.
Proof. apply filter_app. Qed.

(** The active memberships of a user after a grant: the new row alone for
    the granted user, unchanged for the others. *)
Lemma active_of_grant clk user pkg tbl tbl' other :
  GrantMembership clk user pkg tbl = Some tbl' ->
  (other = user -> exists m,
      active_of other tbl' = [m]
      /\ UserMembership.remaining_ads m = MembershipPackage.max_ads pkg
      /\ UserMembership.remaining_boost_credits m
         = MembershipPackage.boost_credits pkg)
  /\ (other <> user -> active_of other tbl' = active_of other tbl).
Proof.
  intro H. apply GrantMembership_inv in H as (pid & _ & ->).
  rewrite active_of_app, active_of_superseded. split.
  - intros ->. rewrite Z.eqb_refl. simpl.
    unfold active_of, superseded_by, UserMembership.is_active; simpl.
    rewrite Z.eqb_refl. simpl. eexists; repeat split.
  - intro Hne. destruct (Z.eqb_spec other user) as [|_]; [contradiction|].
    unfold active_of at 2, superseded_by; simpl.
    destruct (Z.eqb_spec user other) as [|_]; [congruence|].
    apply app_nil_r.
Qed.

Lemma ConsumeAdQuota_inv m m' :
  ConsumeAdQuota m = Ok m' ->
  UserMembership.is_active m = true
  /\ UserMembership.remaining_ads m <> 0
  /\ m' = UserMembership.set_remaining_ads
            (UserMembership.remaining_ads m - 1) m.
Proof.
  unfold ConsumeAdQuota.
  destruct (UserMembership.is_active m); simpl; [|discriminate].
  destruct (Z.eqb_spec (UserMembership.remaining_ads m) 0); [discriminate|].
  intro H; injection H as <-. auto.
Qed.

Lemma ConsumeBoostCredit_inv m m' :
  ConsumeBoostCredit m = Ok m' ->
  UserMembership.is_active m = true
  /\ UserMembership.remaining_boost_credits m <> 0
  /\ m' = UserMembership.set_remaining_boost_credits
            (UserMembership.remaining_boost_credits m - 1) m.
Proof.
  unfold ConsumeBoostCredit.
  destruct (UserMembership.is_active m); simpl; [|discriminate].
  destruct (Z.eqb_spec (UserMembership.remaining_boost_credits m) 0);
    [discriminate|].
  intro H; injection H as <-. auto.
Qed.

(** Replacing one row by a row that is active for the same users keeps
    the number of active memberships of every user. *)
Lemma active_count_replace user before after (m m' : UserMembership.t) :
  superseded_by user m' = superseded_by user m ->
  List.length (active_of user (before ++ m' :: after))
  = List.length (active_of user (before ++ m :: after)).
Proof.
  intro H. unfold active_of. rewrite !filter_app, !length_app. simpl.
  rewrite H. now destruct (superseded_by user m).
Qed.

Lemma active_count_sweep user clk tbl :
  (List.length (active_of user (map (sweep_membership clk) tbl))
   <= List.length (active_of user tbl))%nat.
Proof.
  unfold active_of. induction tbl as [|m tbl IH]; simpl; [lia|].
  unfold sweep_membership at 1.
  destruct (UserMembership.is_active m
            && (UserMembership.end_date m <? today clk)) eqn:E.
  - unfold superseded_by at 1, UserMembership.is_active at 1. simpl.
    rewrite andb_false_r. destruct (superseded_by user m); simpl; lia.
  - destruct (superseded_by user m); simpl; lia.
Qed.

(** One step of the engine keeps the invariant. *)
Lemma membership_step_at_most_one_active eligible tbl tbl' :
  membership_step eligible tbl tbl' ->
  at_most_one_active tbl -> at_most_one_active tbl'.
Proof.
  intros Hstep Hinv user. specialize (Hinv user).
  destruct Hstep as [clk granted pkg tbl tbl' _ Hgrant
                    | before m after m' Hc
                    | before m after m' Hc
                    | clk tbl].
  - destruct (active_of_grant _ _ _ _ user Hgrant) as [Hsame Hother].
    destruct (Z.eq_dec user granted) as [->|Hne].
    + destruct (Hsame eq_refl) as (m & -> & _). simpl; lia.
    + now rewrite (Hother Hne).
  - apply ConsumeAdQuota_inv in Hc as (_ & _ & ->).
    now rewrite active_count_replace with (m := m).
  - apply ConsumeBoostCredit_inv in Hc as (_ & _ & ->).
    now rewrite active_count_replace with (m := m).
  - pose proof (active_count_sweep user clk tbl). lia.
Qed.

Lemma membership_reachable_at_most_one_active eligible tbl :
  membership_reachable eligible tbl -> at_most_one_active tbl.
Proof.
  induction 1 as [|tbl tbl' _ IH Hstep].
  - intro user. simpl. lia.
  - exact (membership_step_at_most_one_active Hstep IH).
Qed.

(** C3: in every membership table the engine produces, each user has at
    most one active membership; a further grant keeps it so, leaves the
    granted user with the new membership as the only active one, and
    keeps every membership it supersedes, forced to inactive. *)
Theorem at_most_one_active_membership (tbl : list UserMembership.t)
    (Hreach : membership_reachable any_package tbl) :
  at_most_one_active tbl
  /\ forall clk user pkg tbl',
      GrantMembership clk user pkg tbl = Some tbl' ->
      at_most_one_active tbl'
      /\ (exists m,
            active_of user tbl' = [m]
            /\ UserMembership.remaining_ads m = MembershipPackage.max_ads pkg
            /\ UserMembership.remaining_boost_credits m
               = MembershipPackage.boost_credits pkg)
      /\ (forall old,
            In old tbl -> UserMembership.user_id old = user ->
            UserMembership.status old = MembershipStatus.ACTIVE ->
            In (UserMembership.set_status MembershipStatus.INACTIVE old) tbl').
Proof.
  pose proof (membership_reachable_at_most_one_active Hreach) as Hinv.
  split; [exact Hinv|].
  intros clk user pkg tbl' Hgrant. split; [|split].
  - apply membership_step_at_most_one_active with (eligible := any_package)
                                                  (tbl := tbl); [|exact Hinv].
    now apply ms_grant with (clk := clk) (user := user) (pkg := pkg).
  - now apply (active_of_grant _ _ _ _ user Hgrant).
  - intros old Hin Huser Hstatus.
    apply GrantMembership_inv in Hgrant as (pid & _ & ->).
    apply in_or_app; left.
    apply in_map_iff. exists old. split; [|exact Hin].
    unfold superseded_by, UserMembership.is_active.
    now rewrite Huser, Hstatus, Z.eqb_refl.
Qed.

Lemma granted_twice_reachable :
  membership_reachable any_package Scenario.granted_twice.
Proof.
  apply mr_step with (tbl := Scenario.granted_once).
  - apply mr_step with (tbl := []); [apply mr_empty|].
    now apply ms_grant with (clk := Scenario.at_day 0) (user := 7)
                            (pkg := Scenario.gold).
  - now apply ms_grant with (clk := Scenario.at_day 3) (user := 7)
                            (pkg := Scenario.gold).
Defined.

(** C3 (witness): after user 7 bought the gold package twice, the table
    holds the first membership inactive and the second active. *)
Lemma at_most_one_active_membership_witness :
  map UserMembership.status Scenario.granted_twice
  = [MembershipStatus.INACTIVE; MembershipStatus.ACTIVE]
  /\ at_most_one_active Scenario.granted_twice.
Proof.
  split; [reflexivity|].
  exact (proj1 (at_most_one_active_membership granted_twice_reachable)).
Defined.

Lemma membership_step_counters_nonneg tbl tbl' :
  membership_step package_nonneg tbl tbl' ->
  Forall counters_nonneg tbl -> Forall counters_nonneg tbl'.
Proof.
  intros Hstep Hinv.
  destruct Hstep as [clk user pkg tbl tbl' Hpkg Hgrant
                    | before m after m' Hc
                    | before m after m' Hc
                    | clk tbl].
  - apply GrantMembership_inv in Hgrant as (pid & _ & ->).
    apply Forall_app; split.
    + apply Forall_map. revert Hinv. apply Forall_impl. intros m Hm.
      now destruct (superseded_by user m).
    + constructor; [exact Hpkg | constructor].
  - apply ConsumeAdQuota_inv in Hc as (_ & Hne & ->).
    apply Forall_app in Hinv as [Hb Ha]. inversion Ha as [|? ? [Hm1 Hm2] Ha'].
    subst. apply Forall_app; split; [exact Hb|].
    constructor; [|exact Ha']. split; simpl; [lia | exact Hm2].
  - apply ConsumeBoostCredit_inv in Hc as (_ & Hne & ->).
    apply Forall_app in Hinv as [Hb Ha]. inversion Ha as [|? ? [Hm1 Hm2] Ha'].
    subst. apply Forall_app; split; [exact Hb|].
    constructor; [|exact Ha']. split; simpl; [exact Hm1 | lia].
  - apply Forall_map. revert Hinv. apply Forall_impl. intros m Hm.
    unfold sweep_membership.
    now destruct (UserMembership.is_active m
                  && (UserMembership.end_date m <? today clk)).
Qed.

(** C4 (counterexample): the package schema puts no bound on [max_ads],
    and granting a package whose [max_ads] is -1 leaves a membership
    whose [remaining_ads] is -1 in a table the engine produces. *)
Lemma negative_quota_reachable :
  ~ (forall tbl, membership_reachable any_package tbl ->
                 Forall counters_nonneg tbl).
Proof.
  intro H.
  assert (Hreach : membership_reachable any_package
                     (Scenario.grant (Scenario.at_day 0) 7
                        Scenario.overdrawn [])).
  { apply mr_step with (tbl := []); [apply mr_empty|].
    now apply ms_grant with (clk := Scenario.at_day 0) (user := 7)
                            (pkg := Scenario.overdrawn). }
  apply H in Hreach. inversion Hreach as [|? ? [Hads _] _].
  simpl in Hads. lia.
Qed.

(** C4 (amended): when the packages granted have non-negative [max_ads]
    and [boost_credits], every membership in every table the engine
    produces has [remaining_ads >= 0] and [remaining_boost_credits >= 0].
    On an active membership [ConsumeAdQuota] fails with [QuotaExhausted]
    when [remaining_ads == 0] and otherwise succeeds, taking exactly one
    off [remaining_ads] and changing nothing else, so the counter of a
    stored membership stays non-negative; on a membership that is not
    active it fails with [QuotaExhausted] whatever the counter.
    [ConsumeBoostCredit] does the same over [remaining_boost_credits]. *)
Theorem counters_never_negative (tbl : list UserMembership.t)
    (Hreach : membership_reachable package_nonneg tbl) :
  Forall counters_nonneg tbl
  /\ (forall m, UserMembership.remaining_ads m = 0 ->
                ConsumeAdQuota m = Err QuotaExhausted)
  /\ (forall m, UserMembership.remaining_boost_credits m = 0 ->
                ConsumeBoostCredit m = Err QuotaExhausted)
  /\ (forall m m', In m tbl -> ConsumeAdQuota m = Ok m' ->
                   UserMembership.remaining_ads m'
                   = UserMembership.remaining_ads m - 1
                   /\ UserMembership.remaining_boost_credits m'
                      = UserMembership.remaining_boost_credits m
                   /\ counters_nonneg m')
  /\ (forall m m', In m tbl -> ConsumeBoostCredit m = Ok m' ->
                   UserMembership.remaining_boost_credits m'
                   = UserMembership.remaining_boost_credits m - 1
                   /\ UserMembership.remaining_ads m'
                      = UserMembership.remaining_ads m
                   /\ counters_nonneg m')
  /\ (forall m,
         ConsumeAdQuota m
         = if UserMembership.is_active m
              && negb (UserMembership.remaining_ads m =? 0)
           then Ok (UserMembership.set_remaining_ads
                      (UserMembership.remaining_ads m - 1) m)
           else Err QuotaExhausted)
  /\ (forall m,
         ConsumeBoostCredit m
         = if UserMembership.is_active m
              && negb (UserMembership.remaining_boost_credits m =? 0)
           then Ok (UserMembership.set_remaining_boost_credits
                      (UserMembership.remaining_boost_credits m - 1) m)
           else Err QuotaExhausted)
  /\ (forall m, In m tbl ->
                UserMembership.status m = MembershipStatus.ACTIVE ->
                UserMembership.remaining_ads m <> 0 ->
                exists m',
                  ConsumeAdQuota m = Ok m'
                  /\ UserMembership.remaining_ads m'
                     = UserMembership.remaining_ads m - 1
                  /\ 0 <= UserMembership.remaining_ads m')
  /\ (forall m, In m tbl ->
                UserMembership.status m = MembershipStatus.ACTIVE ->
                UserMembership.remaining_boost_credits m <> 0 ->
                exists m',
                  ConsumeBoostCredit m = Ok m'
                  /\ UserMembership.remaining_boost_credits m'
                     = UserMembership.remaining_boost_credits m - 1
                  /\ 0 <= UserMembership.remaining_boost_credits m').
Proof.
  assert (Hinv : Forall counters_nonneg tbl).
  { induction Hreach as [|tbl tbl' _ IH Hstep]; [constructor|].
    exact (membership_step_counters_nonneg Hstep IH). }
  split; [exact Hinv|]. rewrite Forall_forall in Hinv.
  assert (Had : forall m,
             ConsumeAdQuota m
             = if UserMembership.is_active m
                  && negb (UserMembership.remaining_ads m =? 0)
               then Ok (UserMembership.set_remaining_ads
                          (UserMembership.remaining_ads m - 1) m)
               else Err QuotaExhausted).
  { intro m. unfold ConsumeAdQuota.
    destruct (UserMembership.is_active m); simpl; [|reflexivity].
    now destruct (UserMembership.remaining_ads m =? 0). }
  assert (Hboost : forall m,
             ConsumeBoostCredit m
             = if UserMembership.is_active m
                  && negb (UserMembership.remaining_boost_credits m =? 0)
               then Ok (UserMembership.set_remaining_boost_credits
                          (UserMembership.remaining_boost_credits m - 1) m)
               else Err QuotaExhausted).
  { intro m. unfold ConsumeBoostCredit.
    destruct (UserMembership.is_active m); simpl; [|reflexivity].
    now destruct (UserMembership.remaining_boost_credits m =? 0). }
  repeat match goal with |- _ /\ _ => split end.
  - intros m H0. unfold ConsumeAdQuota. rewrite H0. simpl.
    now destruct (UserMembership.is_active m).
  - intros m H0. unfold ConsumeBoostCredit. rewrite H0. simpl.
    now destruct (UserMembership.is_active m).
  - intros m m' Hin Hc. destruct (Hinv m Hin) as [H1 H2].
    apply ConsumeAdQuota_inv in Hc as (_ & Hne & ->). simpl.
    repeat split; simpl; trivial; lia.
  - intros m m' Hin Hc. destruct (Hinv m Hin) as [H1 H2].
    apply ConsumeBoostCredit_inv in Hc as (_ & Hne & ->). simpl.
    repeat split; simpl; trivial; lia.
  - exact Had.
  - exact Hboost.
  - intros m Hin Hact Hne. destruct (Hinv m Hin) as [H1 _].
    rewrite Had. unfold UserMembership.is_active. rewrite Hact. simpl.
    destruct (Z.eqb_spec (UserMembership.remaining_ads m) 0); [contradiction|].
    simpl. eexists. split; [reflexivity|]. simpl. split; [reflexivity|lia].
  - intros m Hin Hact Hne. destruct (Hinv m Hin) as [_ H2].
    rewrite Hboost. unfold UserMembership.is_active. rewrite Hact. simpl.
    destruct (Z.eqb_spec (UserMembership.remaining_boost_credits m) 0);
      [contradiction|].
    simpl. eexists. split; [reflexivity|]. simpl. split; [reflexivity|lia].
Qed.

Lemma granted_twice_reachable_nonneg :
  membership_reachable package_nonneg Scenario.granted_twice.
Proof.
  assert (Hgold : package_nonneg Scenario.gold) by (split; discriminate).
  apply mr_step with (tbl := Scenario.granted_once).
  - apply mr_step with (tbl := []); [apply mr_empty|].
    now apply ms_grant with (clk := Scenario.at_day 0) (user := 7)
                            (pkg := Scenario.gold).
  - now apply ms_grant with (clk := Scenario.at_day 3) (user := 7)
                            (pkg := Scenario.gold).
Defined.

(** C4 (witness): the two gold memberships of user 7 carry the counters
    of the package, ten ads and two boost credits each. *)
Lemma counters_never_negative_witness :
  map (fun m => (UserMembership.remaining_ads m,
                 UserMembership.remaining_boost_credits m))
    Scenario.granted_twice = [(10, 2); (10, 2)]
  /\ Forall counters_nonneg Scenario.granted_twice.
Proof.
  split; [reflexivity|].
  exact (proj1 (counters_never_negative granted_twice_reachable_nonneg)).
Defined.

(** ** The payments table *)

(** The primary key and the gateway order id of a row. *)
Lemma update_found_map {A B : Type} (f : A -> bool) (h : A -> B)
    (l : list A) (x y : A) :
  find f l = Some x -> h y = h x ->
  map h (update_first f (fun _ => y) l) = map h l.
Proof.
  intros Hfind Hy. induction l as [|z l IH]; simpl in *; [reflexivity|].
  destruct (f z); simpl.
  - injection Hfind as ->. now rewrite Hy.
  - now rewrite IH.
Qed.

Lemma find_some_key {A : Type} (f : A -> bool) (l : list A) (x : A) :
  find f l = Some x -> f x = true /\ In x l.
Proof. intro H. apply find_some in H. tauto. Qed.

Lemma insert_payment_inv p tbl tbl' :
  insert_payment p tbl = Ok tbl' ->
  existsb (has_order_id (Payment.midtrans_order_id p)) tbl = false
  /\ exists i, tbl' = tbl ++ [Payment.set_id (Some i) p].
Proof.
  unfold insert_payment.
  destruct (existsb _ tbl); [discriminate|].
  destruct (existsb (has_order_id (Payment.midtrans_order_id p)) tbl);
    [discriminate|].
  intro H; injection H as <-. split; [reflexivity|]. now eexists.
Qed.

Lemma sweep_payment_keys clk p :
  Payment.midtrans_order_id (sweep_payment clk p) = Payment.midtrans_order_id p
  /\ Payment.id (sweep_payment clk p) = Payment.id p.
Proof.
  unfold sweep_payment.
  now destruct (PaymentStatus.eqb (Payment.status p) PaymentStatus.PENDING
                && lapsed (Payment.expires_at p) (now clk)).
Qed.

(** A step only appends rows: the rows already stored keep their place,
    their primary key and their order id. *)
Lemma payment_step_keys tbl tbl' :
  payment_step tbl tbl' ->
  exists added,
    map Payment.midtrans_order_id tbl'
    = map Payment.midtrans_order_id tbl ++ map Payment.midtrans_order_id added
    /\ map Payment.id tbl' = map Payment.id tbl ++ map Payment.id added
    /\ (forall p, In p added ->
                  ~ In (Payment.midtrans_order_id p)
                       (map Payment.midtrans_order_id tbl))
    /\ (List.length added <= 1)%nat.
Proof.
  destruct 1 as [p tbl tbl' Hins | env clk ev p p' effs tbl Hfind Htr
                | clk tbl].
  - apply insert_payment_inv in Hins as (Hfresh & i & ->).
    exists [Payment.set_id (Some i) p]. rewrite !map_app.
    repeat split; simpl; [|lia].
    intros q [<-|[]]. simpl. intro Hin.
    apply in_map_iff in Hin as (r & Hr & Hin).
    assert (existsb (has_order_id (Payment.midtrans_order_id p)) tbl = true)
      as Hex; [|congruence].
    apply existsb_exists. exists r. split; [exact Hin|].
    unfold has_order_id. rewrite Hr. apply String.eqb_refl.
  - exists []. simpl. rewrite !app_nil_r.
    apply transition_Transitioned in Htr as (_ & _ & _ & Hoid & Hid & _).
    repeat split; try (now intros ? []); try lia;
      now apply update_found_map with (x := p).
  - exists []. simpl. rewrite !app_nil_r, !map_map.
    repeat split; try (now intros ? []); try lia;
      apply map_ext; intro q; apply sweep_payment_keys.
Qed.

Lemma payment_step_unique tbl tbl' :
  payment_step tbl tbl' ->
  NoDup (map Payment.midtrans_order_id tbl) ->
  NoDup (map Payment.midtrans_order_id tbl').
Proof.
  intros Hstep Hnd.
  apply payment_step_keys in Hstep as (added & -> & _ & Hfresh & Hlen).
  destruct added as [|p [|q added]]; simpl in *; [now rewrite app_nil_r| |lia].
  apply NoDup_app; repeat split; trivial.
  - repeat constructor. intros [].
  - intros oid Hin [<-|[]]. exact (Hfresh p (or_introl eq_refl) Hin).
Qed.

(** The rows stored before a run of steps are found afterwards at the
    same place, with the same primary key and the same order id. *)
Lemma payment_steps_keys tbl tbl' :
  payment_steps tbl tbl' ->
  exists later,
    map Payment.midtrans_order_id tbl'
    = map Payment.midtrans_order_id tbl ++ map Payment.midtrans_order_id later
    /\ map Payment.id tbl' = map Payment.id tbl ++ map Payment.id later.
Proof.
  induction 1 as [tbl | tbl tbl' tbl'' _ (later & IH1 & IH2) Hstep].
  - exists []. simpl. now rewrite !app_nil_r.
  - apply payment_step_keys in Hstep as (added & H1 & H2 & _).
    exists (later ++ added). rewrite H1, H2, IH1, IH2, !map_app.
    now rewrite !app_assoc.
Qed.

Lemma payment_steps_unique tbl tbl' :
  payment_steps tbl tbl' ->
  NoDup (map Payment.midtrans_order_id tbl) ->
  NoDup (map Payment.midtrans_order_id tbl').
Proof.
  induction 1 as [|tbl tbl' tbl'' _ IH Hstep]; [trivial|].
  intro Hnd. exact (payment_step_unique Hstep (IH Hnd)).
Qed.

Lemma nth_error_map_prefix {A B : Type} (h : A -> B) (l l' : list A)
    (rest : list B) (i : nat) (x : A) :
  map h l' = map h l ++ rest ->
  nth_error l i = Some x ->
  exists x', nth_error l' i = Some x' /\ h x' = h x.
Proof.
  intros Hmap Hx.
  assert (Hi : nth_error (map h l') i = Some (h x)).
  { rewrite Hmap, nth_error_app1.
    - now apply map_nth_error.
    - rewrite length_map. apply nth_error_Some. congruence. }
  rewrite nth_error_map in Hi.
  destruct (nth_error l' i) as [x'|]; [|discriminate].
  exists x'. split; [reflexivity|]. now injection Hi.
Qed.

(** C5: in a payments table built from the empty table by inserts,
    transitions and sweeps, two distinct rows never have the same
    [midtrans_order_id]; and whatever steps follow, each row is still
    there with the order id (and primary key) it was created with. *)
Theorem order_id_unique_and_immutable (tbl tbl' : list Payment.t)
    (Hreach : payment_steps [] tbl) (Hlater : payment_steps tbl tbl') :
  (forall i j p q,
      nth_error tbl i = Some p -> nth_error tbl j = Some q -> i <> j ->
      Payment.midtrans_order_id p <> Payment.midtrans_order_id q)
  /\ (forall i p,
         nth_error tbl i = Some p ->
         exists p',
           nth_error tbl' i = Some p'
           /\ Payment.midtrans_order_id p' = Payment.midtrans_order_id p
           /\ Payment.id p' = Payment.id p).
Proof.
  split.
  - intros i j p q Hp Hq Hij Heq. apply Hij.
    assert (Hnd : NoDup (map Payment.midtrans_order_id tbl)).
    { apply (payment_steps_unique Hreach). constructor. }
    rewrite NoDup_nth_error in Hnd. apply Hnd.
    + rewrite length_map. apply nth_error_Some. congruence.
    + rewrite !nth_error_map, Hp, Hq. simpl. now rewrite Heq.
  - intros i p Hp.
    destruct (payment_steps_keys Hlater) as (later & Hoid & Hid).
    destruct (@nth_error_map_prefix _ _ _ _ _ _ _ _ Hoid Hp) as (p1 & H1 & Ho).
    destruct (@nth_error_map_prefix _ _ _ _ _ _ _ _ Hid Hp) as (p2 & H2 & Hi).
    exists p1. repeat split; trivial. congruence.
Qed.

Lemma payments_created_reachable : payment_steps [] Scenario.payments_created.
Proof.
  apply pss_step with (tbl' := Scenario.insert Scenario.membership_order []).
  - apply pss_step with (tbl' := []); [apply pss_refl|].
    now apply ps_insert with (p := Scenario.membership_order).
  - now apply ps_insert with (p := Scenario.boost_order 2 "ORDER-2" 7).
Defined.

Lemma payments_settled_later :
  payment_steps Scenario.payments_created Scenario.payments_settled.
Proof.
  apply pss_step with (tbl' := Scenario.payments_created); [apply pss_refl|].
  apply ps_transition
    with (env := Scenario.env) (clk := Scenario.at_day 1)
         (ev := Scenario.settlement) (p := Scenario.membership_order)
         (p' := Scenario.settled_order)
         (effs := [EffGrantMembership (Some 1)]);
    reflexivity.
Defined.

(** C5 (witness): two orders are created and the first is settled; the
    settled row is completed and still carries [ORDER-1]. *)
Lemma order_id_unique_and_immutable_witness :
  map (fun p => (Payment.midtrans_order_id p, Payment.status p))
    Scenario.payments_settled
  = [("ORDER-1", PaymentStatus.COMPLETED); ("ORDER-2", PaymentStatus.PENDING)]
  /\ (forall i p,
         nth_error Scenario.payments_created i = Some p ->
         exists p',
           nth_error Scenario.payments_settled i = Some p'
           /\ Payment.midtrans_order_id p' = Payment.midtrans_order_id p
           /\ Payment.id p' = Payment.id p).
Proof.
  split; [reflexivity|].
  exact (proj2 (order_id_unique_and_immutable
                  payments_created_reachable payments_settled_later)).
Defined.

(** ** Reconciliation *)

Lemma find_update_found {A : Type} (f : A -> bool) (l : list A) (x y : A) :
  find f l = Some x -> f y = true ->
  find f (update_first f (fun _ => y) l) = Some y.
Proof.
  intros Hfind Hy. induction l as [|z l IH]; simpl in *; [discriminate|].
  destruct (f z) eqn:E; simpl.
  - now rewrite Hy.
  - rewrite E. now apply IH.
Qed.

(** The clock only enters a transition through the payment time that a
    completion records. *)
Lemma transition_clock env clk1 clk2 p ev :
  match transition env clk1 p ev, transition env clk2 p ev with
  | Transitioned p1 effs1, Transitioned p2 effs2 =>
      effs1 = effs2
      /\ Payment.user_id p1 = Payment.user_id p2
      /\ (ev_target ev <> PaymentStatus.COMPLETED -> p1 = p2)
  | AlreadyInTarget, AlreadyInTarget => True
  | Rejected e1, Rejected e2 => e1 = e2
  | _, _ => False
  end.
Proof.
  unfold transition.
  destruct (has_order_id (ev_order_id ev) p); simpl; [|reflexivity].
  destruct (PaymentStatus.eqb (Payment.status p) (ev_target ev)
            && is_terminal (ev_target ev)); [exact I|].
  destruct (allowed (Payment.status p) (ev_target ev)); [|reflexivity].
  repeat split. intro Hne.
  destruct (ev_target ev); try reflexivity. now contradiction Hne.
Qed.

(** Whether the effects of a transition can be applied does not depend on
    the clock. *)
Lemma apply_effects_clock env clk1 clk2 p p1 p2 catalog target rows :
  Payment.user_id p1 = Payment.user_id p2 ->
  (target <> PaymentStatus.COMPLETED -> p1 = p2) ->
  apply_effects env clk1 p1 catalog (effects_of env p target) rows = None ->
  apply_effects env clk2 p2 catalog (effects_of env p target) rows = None.
Proof.
  intros Huser Hsame. unfold effects_of.
  destruct rows as [ms adverts].
  destruct (Payment.status p), target; simpl; try discriminate.
  - destruct (Payment.payment_type p); simpl.
    + destruct (Payment.membership_package_id p) as [pid|]; [|reflexivity].
      destruct (find (package_has_id pid) catalog) as [pkg|]; [|reflexivity].
      unfold GrantMembership.
      destruct (MembershipPackage.id pkg); [discriminate | reflexivity].
    + destruct (Payment.boosted_ad_id p) as [aid|]; [|reflexivity].
      destruct (boost_days env p) as [days|]; [|reflexivity].
      destruct (existsb (ad_has_id aid) adverts);
        [discriminate | reflexivity].
  - rewrite Hsame by discriminate. trivial.
Qed.

(** Step 4 of the protocol: a payment already in the requested terminal
    status answers success and the ledger is returned as it was. *)
Lemma reconcile_short_circuit env clk cb L p target :
  verify env cb (secret env) = true ->
  find (has_order_id (PaymentCallback.order_id cb)) (payments L) = Some p ->
  map_status env (PaymentCallback.transaction_status cb) = Some target ->
  Payment.status p = target ->
  is_terminal target = true ->
  reconcile env clk cb L = (Ok AlreadyApplied, L).
Proof.
  intros Hv Hfind Hmap Hst Hterm. unfold reconcile.
  rewrite Hv, Hfind, Hmap. simpl.
  assert (PaymentStatus.eqb (Payment.status p) target = true) as ->
    by now apply PaymentStatus_eqb_eq.
  now rewrite Hterm.
Qed.

(** The guards of steps 1 to 4, in order; [tac] closes the goal of each
    early return. *)
Ltac reconcile_guards tac :=
  unfold reconcile;
  destruct (verify _ _ _); simpl; [|tac];
  destruct (find _ (payments _)) as [p|]; [|tac];
  destruct (map_status _ _) as [target|]; [|tac];
  destruct (PaymentStatus.eqb (Payment.status p) target && is_terminal target);
    [tac|];
  destruct (is_terminal (Payment.status p)
            && negb (allowed (Payment.status p) target)); [tac|].

(** What a reconciliation that applied a callback has done. *)
Lemma reconcile_Applied_inv env clk cb L L' :
  reconcile env clk cb L = (Ok Applied, L') ->
  exists p p' target ms adverts,
    verify env cb (secret env) = true
    /\ find (has_order_id (PaymentCallback.order_id cb)) (payments L) = Some p
    /\ map_status env (PaymentCallback.transaction_status cb) = Some target
    /\ transition env clk p (event_of cb target)
       = Transitioned p' (effects_of env p target)
    /\ apply_effects env clk p' (packages L) (effects_of env p target)
         (memberships L, ads L) = Some (ms, adverts)
    /\ L' = {| payments :=
                 update_first (has_order_id (PaymentCallback.order_id cb))
                   (fun _ => p') (payments L);
               memberships := ms;
               ads := adverts;
               packages := packages L |}.
Proof.
  reconcile_guards discriminate.
  destruct (transition env clk p (event_of cb target)) as [p' effs| |e] eqn:Htr;
    try discriminate.
  destruct (apply_effects env clk p' (packages L) effs
              (memberships L, ads L)) as [[ms adverts]|] eqn:Happ;
    [|discriminate].
  intro H; injection H as <-.
  pose proof (transition_Transitioned _ _ _ _ Htr)
    as (_ & _ & _ & _ & _ & _ & He & _).
  simpl in He. subst effs.
  exists p, p', target, ms, adverts. repeat split; trivial.
Qed.

(** A reconciliation that did not apply the callback returns the ledger
    as it was, and answers the same at any other time. *)
Lemma reconcile_not_applied env clk1 clk2 cb L :
  fst (reconcile env clk1 cb L) <> Ok Applied ->
  snd (reconcile env clk1 cb L) = L
  /\ reconcile env clk2 cb L = reconcile env clk1 cb L.
Proof.
  reconcile_guards ltac:(now split).
  pose proof (transition_clock env clk1 clk2 p (event_of cb target)) as Hclk.
  destruct (transition env clk1 p (event_of cb target))
    as [p1 effs1| |e1] eqn:H1;
    destruct (transition env clk2 p (event_of cb target))
      as [p2 effs2| |e2] eqn:H2; try contradiction; try (now split).
  - destruct Hclk as (<- & Huser & Hsame). simpl in Hsame.
    pose proof (transition_Transitioned _ _ _ _ H1)
      as (_ & _ & _ & _ & _ & _ & He & _).
    simpl in He. subst effs1.
    destruct (apply_effects env clk1 p1 (packages L) (effects_of env p target)
                (memberships L, ads L)) as [[ms adverts]|] eqn:Happ.
    + intro Hne. now contradiction Hne.
    + intros _.
      now rewrite (@apply_effects_clock env clk1 clk2 p p1 p2 _ _ _
                     Huser Hsame Happ).
  - subst e2. now split.
Qed.

(** Replaying a callback that was applied finds the payment in the
    requested status and changes nothing. *)
Lemma reconcile_applied_replay env clk1 clk2 cb L L' :
  reconcile env clk1 cb L = (Ok Applied, L') ->
  reconcile env clk2 cb L' = (Ok AlreadyApplied, L').
Proof.
  intro H.
  apply reconcile_Applied_inv
    in H as (p & p' & target & ms & adverts & Hv & Hfind & Hmap & Htr & _ & ->).
  pose proof (transition_Transitioned _ _ _ _ Htr)
    as (Hkey & Hal & Hst & Hoid & _).
  simpl in Hkey, Hal, Hst.
  apply reconcile_short_circuit with (p := p') (target := target); trivial.
  - simpl. apply find_update_found with (x := p); [exact Hfind|].
    unfold has_order_id in *. now rewrite Hoid.
  - now apply allowed_target_terminal with (from := Payment.status p).
Qed.

(** The answer and the ledger of a second delivery, in terms of the
    first. *)
Lemma reconcile_replay env clk1 clk2 cb L :
  reconcile env clk2 cb (snd (reconcile env clk1 cb L))
  = (match fst (reconcile env clk1 cb L) with
     | Ok _ => Ok AlreadyApplied
     | Err e => Err e
     end,
     snd (reconcile env clk1 cb L)).
Proof.
  destruct (reconcile env clk1 cb L) as [[[]|e] L1] eqn:H1; simpl.
  - exact (@reconcile_applied_replay env clk1 clk2 cb L L1 H1).
  - destruct (@reconcile_not_applied env clk1 clk2 cb L) as [Hs Hr];
      rewrite H1 in *; simpl in *; [discriminate|].
    subst L1. exact Hr.
  - destruct (@reconcile_not_applied env clk1 clk2 cb L) as [Hs Hr];
      rewrite H1 in *; simpl in *; [discriminate|].
    subst L1. exact Hr.
Qed.

(** C1: replaying the identical callback leaves the ledger (payments,
    memberships, ads) exactly as the first delivery left it, at whatever
    time the replay arrives: after a delivery that succeeded the replay
    answers success without applying anything, after one that was
    rejected it is rejected the same way; and a callback for a payment
    already in the requested terminal status answers success and returns
    the ledger untouched. *)
Theorem reconcile_idempotent (env : Collaborators) (clk1 clk2 : Clock)
    (cb : PaymentCallback.t) (L : Ledger) :
  let first := reconcile env clk1 cb L in
  let second := reconcile env clk2 cb (snd first) in
  snd second = snd first
  /\ match fst first with
     | Ok _ => fst second = Ok AlreadyApplied
     | Err e => fst second = Err e
     end
  /\ (forall p target,
         verify env cb (secret env) = true ->
         find (has_order_id (PaymentCallback.order_id cb)) (payments L)
         = Some p ->
         map_status env (PaymentCallback.transaction_status cb)
         = Some target ->
         Payment.status p = target ->
         is_terminal target = true ->
         first = (Ok AlreadyApplied, L)).
Proof.
  cbv zeta. rewrite reconcile_replay. simpl. split; [reflexivity|]. split.
  - now destruct (fst (reconcile env clk1 cb L)).
  - intros p target Hv Hfind Hmap Hst Hterm.
    now apply reconcile_short_circuit with (p := p) (target := target).
Qed.

(** C1 (witness): the settlement of the membership order delivered on day
    0 and again on day 1 grants the package once: one membership, with
    the ten ads of the package. *)
Lemma reconcile_idempotent_witness :
  let cb := Scenario.callback "ORDER-1" "settlement" in
  let first := reconcile Scenario.env (Scenario.at_day 0) cb Scenario.ledger in
  let second := reconcile Scenario.env (Scenario.at_day 1) cb (snd first) in
  fst first = Ok Applied
  /\ fst second = Ok AlreadyApplied
  /\ map UserMembership.remaining_ads (memberships (snd second)) = [10]
  /\ snd second = snd first.
Proof.
  cbv zeta. split; [reflexivity|]. split; [reflexivity|].
  split; [reflexivity|].
  exact (proj1 (reconcile_idempotent Scenario.env (Scenario.at_day 0)
                  (Scenario.at_day 1)
                  (Scenario.callback "ORDER-1" "settlement")
                  Scenario.ledger)).
Defined.

(** ** The scenarios of the specification, run on the model *)

(** Scenario A: the settlement of a pending membership payment creates
    the membership with the counters and duration of the package and
    completes the payment, recording the payment time. *)
Example scenario_A :
  let after := snd (reconcile Scenario.env (Scenario.at_day 0)
                      (Scenario.callback "ORDER-1" "settlement")
                      Scenario.ledger) in
  map (fun m => (UserMembership.status m, UserMembership.remaining_ads m,
                 UserMembership.remaining_boost_credits m,
                 UserMembership.end_date m - UserMembership.start_date m))
    (memberships after)
  = [(MembershipStatus.ACTIVE, 10, 2, 30)]
  /\ map (fun p => (Payment.status p, Payment.paid_at p)) (payments after)
     = [(PaymentStatus.COMPLETED, Some Scenario.T);
        (PaymentStatus.PENDING, None); (PaymentStatus.PENDING, None)].
Proof. split; reflexivity. Qed.

(** Scenario B: a second grant leaves the first membership inactive with
    its counters and creates a fresh active one. *)
Example scenario_B :
  map (fun m => (UserMembership.id m, UserMembership.status m,
                 UserMembership.remaining_ads m))
    Scenario.granted_twice
  = [(Some 1, MembershipStatus.INACTIVE, 10);
     (Some 2, MembershipStatus.ACTIVE, 10)].
Proof. reflexivity. Qed.

(** Scenarios C and D: a 7-day boost paid at T and a 3-day boost paid at
    T+5d leave the ad boosted until T+10d; the sweep at T+11d clears the
    flag and keeps the expiry. *)
Example scenario_C_D :
  let first := reconcile Scenario.env (Scenario.at_day 0)
                 (Scenario.callback "ORDER-2" "settlement") Scenario.ledger in
  let second := reconcile Scenario.env (Scenario.at_day 5)
                  (Scenario.callback "ORDER-3" "settlement") (snd first) in
  let boost L := map (fun a => (Ad.is_boosted a, Ad.boost_expires_at a))
                   (ads L) in
  boost (snd first) = [(true, Some (Scenario.T + timedelta_days 7))]
  /\ boost (snd second) = [(true, Some (Scenario.T + timedelta_days 10))]
  /\ boost (sweep (Scenario.at_day 11) (snd second))
     = [(false, Some (Scenario.T + timedelta_days 10))].
Proof. repeat split; reflexivity. Qed.

(** Scenario E: a failure callback for a completed payment is a
    [ConflictingStatus] and the ledger is returned as it was. *)
Example scenario_E :
  let settled := snd (reconcile Scenario.env (Scenario.at_day 0)
                        (Scenario.callback "ORDER-1" "settlement")
                        Scenario.ledger) in
  reconcile Scenario.env (Scenario.at_day 1)
    (Scenario.callback "ORDER-1" "deny") settled
  = (Err ConflictingStatus, settled).
Proof. reflexivity. Qed.

(** * Further properties of the data model *)

(** ** Enumerations *)

Lemma enum_by_value_value {A : Type} (value : A -> string)
    (members : list A) (s : string) (m : A) :
  enum_by_value value members s = Some m -> value m = s.
Proof.
  unfold enum_by_value. intro H. apply find_some in H as [_ H].
  now apply String.eqb_eq.
Qed.

(** X1: for each of the six enumerations, looking a string up by value
    returns a member exactly when that member has this value: every
    member is found again from its own value (no two members share one)
    and a string that is no member's value is refused. *)
Theorem enum_lookup_by_value (s : string) :
  (forall m, enum_by_value UserRole.value UserRole.members s = Some m
             <-> UserRole.value m = s)
  /\ (forall m, enum_by_value UserStatus.value UserStatus.members s = Some m
                <-> UserStatus.value m = s)
  /\ (forall m, enum_by_value AdStatus.value AdStatus.members s = Some m
                <-> AdStatus.value m = s)
  /\ (forall m, enum_by_value PaymentStatus.value PaymentStatus.members s
                = Some m <-> PaymentStatus.value m = s)
  /\ (forall m, enum_by_value MembershipStatus.value MembershipStatus.members s
                = Some m <-> MembershipStatus.value m = s)
  /\ (forall m, enum_by_value PaymentType.value PaymentType.members s = Some m
                <-> PaymentType.value m = s).
Proof.
  repeat split; try apply enum_by_value_value;
    intros <-; destruct m; reflexivity.
Qed.

(** ** String fields *)

Lemma check_length_ok field lo hi s :
  check_length field lo hi s = [] <-> (lo <= characters s <= hi)%nat.
Proof.
  unfold check_length.
  destruct (Nat.ltb_spec (characters s) lo);
    destruct (Nat.ltb_spec hi (characters s));
    split; intro H'; try discriminate; try reflexivity; lia.
Qed.

Lemma str_field_ok field lo hi given :
  str_field field lo hi given = [] <->
  exists s, given = Some s /\ (lo <= characters s <= hi)%nat.
Proof.
  destruct given as [s|]; simpl.
  - rewrite check_length_ok. split.
    + intro H. now exists s.
    + intros (s' & Hs & H). now injection Hs as ->.
  - split; [discriminate|]. now intros (s & Hs & _).
Qed.

Lemma opt_str_field_ok field hi given :
  opt_str_field field hi given = [] <-> opt_length_le hi given = true.
Proof.
  destruct given as [s|]; simpl; [|tauto].
  rewrite check_length_ok, Nat.leb_le. lia.
Qed.

Lemma plain_field_ok {A : Type} field (given : option A) :
  plain_field field given = [] <-> given <> None.
Proof.
  destruct given; simpl; split; intro H; try discriminate; try reflexivity.
  now contradiction H.
Qed.

(** Weakening the bounds of a field keeps it accepted. *)
Lemma str_field_weaken field field' lo hi lo' hi' s :
  (lo' <= lo)%nat -> (hi <= hi')%nat ->
  str_field field lo hi (Some s) = [] ->
  str_field field' lo' hi' (Some s) = [].
Proof.
  intros Hlo Hhi H. apply str_field_ok in H as (s' & Hs & H).
  injection Hs as <-. apply str_field_ok. exists s. split; [reflexivity|lia].
Qed.

Lemma opt_str_field_rename field field' hi given :
  opt_str_field field hi given = [] -> opt_str_field field' hi given = [].
Proof. rewrite !opt_str_field_ok. trivial. Qed.

Lemma str_field_as_optional field field' lo hi s :
  str_field field lo hi (Some s) = [] -> opt_str_field field' hi (Some s) = [].
Proof.
  intro H. apply str_field_ok in H as (s' & Hs & H). injection Hs as <-.
  apply opt_str_field_ok. simpl. apply Nat.leb_le. lia.
Qed.

(** Characters, not bytes, are counted: seven kanji take 21 bytes and are
    7 characters, one short of the minimum of a password, and a name of
    accented letters is as long as it reads. *)
Example characters_of_utf8_text :
  characters "日日日日日日日" = 7%nat
  /\ String.length "日日日日日日日" = 21%nat
  /\ characters "Zoë" = 3%nat
  /\ characters "rahasia123" = 10%nat
  /\ UserCreate.validate (Some "budi") (Some "budi@example.com")
       (Some "日日日日日日日") (Some "Budi Santoso") None
     = Err [("password", StringTooShort 8)].
Proof. repeat split. Qed.

(** ** User schemas *)

Lemma UserCreate_validate_Ok u e p f ph c :
  UserCreate.validate u e p f ph = Ok c <->
  u = Some (UserCreate.username c) /\ e = Some (UserCreate.email c)
  /\ p = Some (UserCreate.password c) /\ f = Some (UserCreate.full_name c)
  /\ ph = UserCreate.phone c
  /\ UserCreate.errors u e p f ph = [].
Proof.
  unfold UserCreate.validate. split.
  - destruct u, e, p, f; destruct (UserCreate.errors _ _ _ _ _);
      intro H; try discriminate H.
    injection H as <-. simpl. repeat split.
  - intros (-> & -> & -> & -> & -> & ->). now destruct c.
Qed.

Lemma UserCreate_errors_nil u e p f ph :
  UserCreate.errors u e p f ph = [] <->
  str_field "username" 0 50 u = [] /\ str_field "email" 0 255 e = []
  /\ str_field "password" 8 100 p = [] /\ str_field "full_name" 0 100 f = []
  /\ opt_str_field "phone" 20 ph = [].
Proof.
  unfold UserCreate.errors. split.
  - intro H. repeat (apply app_eq_nil in H as [? H]). auto.
  - intros (-> & -> & -> & -> & ->). reflexivity.
Qed.

(** X2: a [UserCreate] is accepted exactly when username, email,
    password and full name are given with at most 50, 255, 100 and 100
    characters, the password has at least 8, and the phone, when given,
    has at most 20; the accepted value stores the fields as given; and a
    password shorter than 8 characters is reported on [password] whatever
    the other fields are. *)
Theorem user_create_accepts_exactly (u e p f ph : option string) :
  ((exists c, UserCreate.validate u e p f ph = Ok c) <->
   (exists su se sp sf,
       u = Some su /\ e = Some se /\ p = Some sp /\ f = Some sf
       /\ (characters su <= 50)%nat /\ (characters se <= 255)%nat
       /\ (8 <= characters sp <= 100)%nat
       /\ (characters sf <= 100)%nat
       /\ opt_length_le 20 ph = true))
  /\ (forall c, UserCreate.validate u e p f ph = Ok c ->
                u = Some (UserCreate.username c)
                /\ e = Some (UserCreate.email c)
                /\ p = Some (UserCreate.password c)
                /\ f = Some (UserCreate.full_name c)
                /\ ph = UserCreate.phone c)
  /\ (forall sp, p = Some sp -> (characters sp < 8)%nat ->
                 exists errs,
                   UserCreate.validate u e p f ph = Err errs
                   /\ In ("password", StringTooShort 8) errs).
Proof.
  split; [|split].
  - split.
    + intros (c & H). apply UserCreate_validate_Ok in H
        as (-> & -> & -> & -> & -> & H).
      apply UserCreate_errors_nil in H as (Hu & He & Hp & Hf & Hph).
      apply str_field_ok in Hu as (su & [= <-] & Hu).
      apply str_field_ok in He as (se & [= <-] & He).
      apply str_field_ok in Hp as (sp & [= <-] & Hp).
      apply str_field_ok in Hf as (sf & [= <-] & Hf).
      apply opt_str_field_ok in Hph.
      do 4 eexists. repeat split; try reflexivity; trivial; lia.
    + intros (su & se & sp & sf & -> & -> & -> & -> & Hu & He & Hp & Hf & Hph).
      exists {| UserCreate.username := su; UserCreate.email := se;
                UserCreate.password := sp; UserCreate.full_name := sf;
                UserCreate.phone := ph |}.
      apply UserCreate_validate_Ok. simpl. repeat split.
      apply UserCreate_errors_nil. repeat split;
        try (apply str_field_ok; eexists; split; [reflexivity|lia]).
      now apply opt_str_field_ok.
  - intros c H. apply UserCreate_validate_Ok in H. tauto.
  - intros sp -> Hlen.
    assert (Hin : In ("password", StringTooShort 8)
                     (UserCreate.errors u e (Some sp) f ph)).
    { unfold UserCreate.errors. apply in_or_app; right.
      apply in_or_app; right. apply in_or_app; left.
      simpl. unfold check_length.
      destruct (Nat.ltb_spec (characters sp) 8); [now left | lia]. }
    exists (UserCreate.errors u e (Some sp) f ph). split; [|exact Hin].
    unfold UserCreate.validate.
    destruct u, e, f; try reflexivity.
    destruct (UserCreate.errors _ _ _ _ _); [destruct Hin | reflexivity].
Qed.

Lemma UserLogin_validate_Ok u p l :
  UserLogin.validate u p = Ok l <->
  u = Some (UserLogin.username l) /\ p = Some (UserLogin.password l)
  /\ UserLogin.errors u p = [].
Proof.
  unfold UserLogin.validate. split.
  - destruct u, p; destruct (UserLogin.errors _ _); intro H;
      try discriminate H.
    injection H as <-. simpl. repeat split.
  - intros (-> & -> & ->). now destruct l.
Qed.

(** X3: the username and password of an accepted registration are
    accepted by the login schema; the login schema itself asks no
    minimum length, so it also accepts the empty password that a
    registration refuses. *)
Theorem registered_credentials_pass_login (u e p f ph : option string)
    (c : UserCreate.t) (Hreg : UserCreate.validate u e p f ph = Ok c) :
  UserLogin.validate (Some (UserCreate.username c))
    (Some (UserCreate.password c))
  = Ok {| UserLogin.username := UserCreate.username c;
          UserLogin.password := UserCreate.password c |}
  /\ UserLogin.validate (Some (UserCreate.username c)) (Some "")
     = Ok {| UserLogin.username := UserCreate.username c;
             UserLogin.password := "" |}
  /\ (forall c', UserCreate.validate u e (Some "") f ph <> Ok c').
Proof.
  apply UserCreate_validate_Ok in Hreg as (-> & -> & -> & -> & -> & H).
  apply UserCreate_errors_nil in H as (Hu & _ & Hp & _ & _).
  assert (Hp' : str_field "password" 0 100 (Some (UserCreate.password c)) = [])
    by (eapply str_field_weaken; [| |exact Hp]; lia).
  split; [|split].
  - apply UserLogin_validate_Ok. simpl. repeat split.
    unfold UserLogin.errors. now rewrite Hu, Hp'.
  - apply UserLogin_validate_Ok. simpl. repeat split.
    unfold UserLogin.errors. now rewrite Hu.
  - intros c' H. apply UserCreate_validate_Ok in H
      as (_ & _ & _ & _ & _ & H).
    apply UserCreate_errors_nil in H as (_ & _ & H & _).
    discriminate H.
Qed.

Lemma registration_accepted :
  UserCreate.validate (Some "budi") (Some "budi@example.com")
    (Some "rahasia123") (Some "Budi Santoso") (Some "0812000111")
  = Ok Fixtures.registration.
Proof. reflexivity. Defined.

(** X3 (witness): the credentials of the registration of budi pass the
    login schema. *)
Lemma registered_credentials_pass_login_witness :
  UserLogin.validate (Some "budi") (Some "rahasia123")
  = Ok {| UserLogin.username := "budi"; UserLogin.password := "rahasia123" |}.
Proof.
  exact (proj1 (registered_credentials_pass_login _ _ _ _ _
                  registration_accepted)).
Defined.

Lemma UserUpdate_validate_Ok u e f ph img r :
  UserUpdate.validate u e f ph img = Ok r <->
  r = {| UserUpdate.username := u; UserUpdate.email := e;
         UserUpdate.full_name := f; UserUpdate.phone := ph;
         UserUpdate.profile_image := img |}
  /\ UserUpdate.errors u e f ph img = [].
Proof.
  unfold UserUpdate.validate.
  destruct (UserUpdate.errors u e f ph img); split.
  - intro H; injection H as <-. now split.
  - now intros [-> _].
  - discriminate.
  - now intros [_ H].
Qed.

Lemma UserUpdate_errors_nil u e f ph img :
  UserUpdate.errors u e f ph img = [] <->
  opt_length_le 50 u = true /\ opt_length_le 255 e = true
  /\ opt_length_le 100 f = true /\ opt_length_le 20 ph = true
  /\ opt_length_le 500 img = true.
Proof.
  unfold UserUpdate.errors. rewrite <- !opt_str_field_ok. split.
  - intro H. repeat (apply app_eq_nil in H as [? H]). eauto 6.
  - intros (-> & -> & -> & -> & ->). reflexivity.
Qed.

(** X4: what a registration accepts can be stored and edited: a [User]
    row built from the username, email, full name and phone of an
    accepted [UserCreate] (with a password hash of at most 255 characters
    and a profile image of at most 500) is within the length of every
    [users] column, and the same four values are accepted as a
    [UserUpdate]. *)
Theorem accepted_registration_fits_users (u e p f ph : option string)
    (c : UserCreate.t) (Hreg : UserCreate.validate u e p f ph = Ok c) :
  (forall clk hash id role status image created updated,
      (characters hash <= 255)%nat ->
      opt_length_le 500 image = true ->
      User.fits_columns
        (User.init clk (UserCreate.username c) (UserCreate.email c) hash
           (UserCreate.full_name c) id (UserCreate.phone c) role status
           image created updated) = true)
  /\ UserUpdate.validate (Some (UserCreate.username c))
       (Some (UserCreate.email c)) (Some (UserCreate.full_name c))
       (UserCreate.phone c) None
     = Ok {| UserUpdate.username := Some (UserCreate.username c);
             UserUpdate.email := Some (UserCreate.email c);
             UserUpdate.full_name := Some (UserCreate.full_name c);
             UserUpdate.phone := UserCreate.phone c;
             UserUpdate.profile_image := None |}.
Proof.
  apply UserCreate_validate_Ok in Hreg as (-> & -> & -> & -> & -> & H).
  apply UserCreate_errors_nil in H as (Hu & He & _ & Hf & Hph).
  apply str_field_ok in Hu as (su & [= <-] & Hu).
  apply str_field_ok in He as (se & [= <-] & He).
  apply str_field_ok in Hf as (sf & [= <-] & Hf).
  apply opt_str_field_ok in Hph.
  split.
  - intros clk hash id role status image created updated Hhash Himg.
    unfold User.fits_columns; simpl.
    rewrite Hph, Himg.
    repeat (apply andb_true_intro; split); trivial; apply Nat.leb_le; lia.
  - apply UserUpdate_validate_Ok. split; [reflexivity|].
    apply UserUpdate_errors_nil. simpl.
    repeat split; trivial; apply Nat.leb_le; lia.
Qed.

(** X4 (witness): the row of budi fits the [users] columns. *)
Lemma accepted_registration_fits_users_witness :
  User.fits_columns Fixtures.budi = true.
Proof.
  apply (proj1 (accepted_registration_fits_users _ _ _ _ _
                  registration_accepted)
           Fixtures.clk "pbkdf2$hash" None None None None None None);
    [simpl; lia | reflexivity].
Defined.

(** ** Category schemas *)

Lemma CategoryCreate_validate_Ok n d i so c :
  CategoryCreate.validate n d i so = Ok c <->
  n = Some (CategoryCreate.name c) /\ d = CategoryCreate.description c
  /\ i = CategoryCreate.icon c /\ CategoryCreate.sort_order c = keyword so 0
  /\ CategoryCreate.errors n d i = [].
Proof.
  unfold CategoryCreate.validate. split.
  - destruct n; destruct (CategoryCreate.errors _ _ _); intro H;
      try discriminate H.
    injection H as <-. simpl. repeat split.
  - intros (-> & -> & -> & Hso & ->). destruct c; simpl in *. now subst.
Qed.

Lemma CategoryUpdate_validate_Ok n d i act so r :
  CategoryUpdate.validate n d i act so = Ok r <->
  r = {| CategoryUpdate.name := n; CategoryUpdate.description := d;
         CategoryUpdate.icon := i; CategoryUpdate.is_active := act;
         CategoryUpdate.sort_order := so |}
  /\ CategoryUpdate.errors n d i = [].
Proof.
  unfold CategoryUpdate.validate.
  destruct (CategoryUpdate.errors n d i); split.
  - intro H; injection H as <-. now split.
  - now intros [-> _].
  - discriminate.
  - now intros [_ H].
Qed.

(** X5: a category is accepted exactly when its name is given with at
    most 100 characters and its description and icon, when given, have at
    most 500 and 100; an omitted [sort_order] is stored as 0; and what is
    accepted is within the length of every [categories] column and is
    accepted again as a [CategoryUpdate]. *)
Theorem category_create_accepts_and_fits (n d i : option string)
    (so : option Z) :
  ((exists c, CategoryCreate.validate n d i so = Ok c) <->
   (exists sn, n = Some sn /\ (characters sn <= 100)%nat)
   /\ opt_length_le 500 d = true /\ opt_length_le 100 i = true)
  /\ (forall c, CategoryCreate.validate n d i so = Ok c ->
        CategoryCreate.sort_order c = keyword so 0
        /\ (forall clk id active created,
               Category.fits_columns
                 (Category.init clk (CategoryCreate.name c) id
                    (CategoryCreate.description c) (CategoryCreate.icon c)
                    active (Some (CategoryCreate.sort_order c)) created)
               = true)
        /\ (forall active,
               CategoryUpdate.validate (Some (CategoryCreate.name c))
                 (CategoryCreate.description c) (CategoryCreate.icon c)
                 active (Some (CategoryCreate.sort_order c))
               = Ok {| CategoryUpdate.name := Some (CategoryCreate.name c);
                       CategoryUpdate.description :=
                         CategoryCreate.description c;
                       CategoryUpdate.icon := CategoryCreate.icon c;
                       CategoryUpdate.is_active := active;
                       CategoryUpdate.sort_order :=
                         Some (CategoryCreate.sort_order c) |})).
Proof.
  assert (Hnil : CategoryCreate.errors n d i = [] <->
                 (exists sn, n = Some sn /\ (characters sn <= 100)%nat)
                 /\ opt_length_le 500 d = true /\ opt_length_le 100 i = true).
  { unfold CategoryCreate.errors.
    rewrite <- (opt_str_field_ok "description"), <- (opt_str_field_ok "icon").
    split.
    - intro H. repeat (apply app_eq_nil in H as [? H]).
      repeat split; trivial.
      match goal with Hn : str_field _ _ _ _ = [] |- _ =>
        apply str_field_ok in Hn as (sn & -> & Hn) end.
      exists sn. split; [reflexivity|lia].
    - intros ((sn & -> & Hn) & -> & ->). rewrite app_nil_r.
      apply str_field_ok. exists sn. split; [reflexivity|lia]. }
  split.
  - rewrite <- Hnil. split.
    + intros (c & H). now apply CategoryCreate_validate_Ok in H.
    + intro H. pose proof H as H'. apply Hnil in H' as ((sn & -> & _) & _).
      exists {| CategoryCreate.name := sn; CategoryCreate.description := d;
                CategoryCreate.icon := i;
                CategoryCreate.sort_order := keyword so 0 |}.
      apply CategoryCreate_validate_Ok. simpl. repeat split. exact H.
  - intros c H. apply CategoryCreate_validate_Ok in H
      as (-> & -> & -> & Hso & H).
    apply Hnil in H as ((sn & [= <-] & Hn) & Hd & Hi).
    split; [exact Hso|]. split.
    + intros. unfold Category.fits_columns; simpl. rewrite Hd, Hi.
      repeat (apply andb_true_intro; split); trivial. now apply Nat.leb_le.
    + intro active. apply CategoryUpdate_validate_Ok. split; [reflexivity|].
      unfold CategoryUpdate.errors.
      rewrite (proj2 (opt_str_field_ok "description" 500 _) Hd).
      rewrite (proj2 (opt_str_field_ok "icon" 100 _) Hi).
      rewrite app_nil_r. apply opt_str_field_ok. simpl. now apply Nat.leb_le.
Qed.

(** ** Update schemas *)

Lemma AdUpdate_validate_Ok fits cid t d pr pn loc ci im tg st r :
  AdUpdate.validate fits cid t d pr pn loc ci im tg st = Ok r <->
  r = {| AdUpdate.category_id := cid; AdUpdate.title := t;
         AdUpdate.description := d; AdUpdate.price := pr;
         AdUpdate.price_negotiable := pn; AdUpdate.location := loc;
         AdUpdate.contact_info := ci; AdUpdate.images := im;
         AdUpdate.tags := tg; AdUpdate.status := st |}
  /\ AdUpdate.errors fits t d pr loc ci = [].
Proof.
  unfold AdUpdate.validate.
  destruct (AdUpdate.errors fits t d pr loc ci); split.
  - intro H; injection H as <-. now split.
  - now intros [-> _].
  - discriminate.
  - now intros [_ H].
Qed.

(** X9: the update schemas check each field on its own: a [UserUpdate],
    a [CategoryUpdate] or an [AdUpdate] is accepted exactly when each of
    its constrained fields is accepted in an update that changes nothing
    else, so the update that changes nothing is always accepted. *)
Theorem updates_check_fields_independently :
  (forall u e f ph img,
      (exists r, UserUpdate.validate u e f ph img = Ok r) <->
      (exists r, UserUpdate.validate u None None None None = Ok r)
      /\ (exists r, UserUpdate.validate None e None None None = Ok r)
      /\ (exists r, UserUpdate.validate None None f None None = Ok r)
      /\ (exists r, UserUpdate.validate None None None ph None = Ok r)
      /\ (exists r, UserUpdate.validate None None None None img = Ok r))
  /\ (forall n d i act so,
         (exists r, CategoryUpdate.validate n d i act so = Ok r) <->
         (exists r, CategoryUpdate.validate n None None None None = Ok r)
         /\ (exists r, CategoryUpdate.validate None d None None None = Ok r)
         /\ (exists r, CategoryUpdate.validate None None i None None = Ok r))
  /\ (forall fits cid t d pr pn loc ci im tg st,
         (exists r, AdUpdate.validate fits cid t d pr pn loc ci im tg st
                    = Ok r) <->
         (exists r, AdUpdate.validate fits None t None None None None None
                      None None None = Ok r)
         /\ (exists r, AdUpdate.validate fits None None d None None None None
                         None None None = Ok r)
         /\ (exists r, AdUpdate.validate fits None None None pr None None
                         None None None None = Ok r)
         /\ (exists r, AdUpdate.validate fits None None None None None loc
                         None None None None = Ok r)
         /\ (exists r, AdUpdate.validate fits None None None None None None
                         ci None None None = Ok r)).
Proof.
  assert (Huser : forall u e f ph img,
             (exists r, UserUpdate.validate u e f ph img = Ok r)
             <-> UserUpdate.errors u e f ph img = []).
  { intros. split; [intros (r & H); now apply UserUpdate_validate_Ok in H|].
    intro H. eexists. apply UserUpdate_validate_Ok. now split. }
  assert (Hcat : forall n d i act so,
             (exists r, CategoryUpdate.validate n d i act so = Ok r)
             <-> CategoryUpdate.errors n d i = []).
  { intros. split; [intros (r & H); now apply CategoryUpdate_validate_Ok in H|].
    intro H. eexists. apply CategoryUpdate_validate_Ok. now split. }
  assert (Had : forall fits cid t d pr pn loc ci im tg st,
             (exists r, AdUpdate.validate fits cid t d pr pn loc ci im tg st
                        = Ok r)
             <-> AdUpdate.errors fits t d pr loc ci = []).
  { intros. split; [intros (r & H); now apply AdUpdate_validate_Ok in H|].
    intro H. eexists. apply AdUpdate_validate_Ok. now split. }
  split; [|split].
  - intros. rewrite !Huser. unfold UserUpdate.errors. simpl.
    rewrite !app_nil_r. split.
    + intro H. repeat (apply app_eq_nil in H as [? H]). auto.
    + intros (-> & -> & -> & -> & ->). reflexivity.
  - intros. rewrite !Hcat. unfold CategoryUpdate.errors. simpl.
    rewrite !app_nil_r. split.
    + intro H. repeat (apply app_eq_nil in H as [? H]). auto.
    + intros (-> & -> & ->). reflexivity.
  - intros. rewrite !Had. unfold AdUpdate.errors. simpl.
    rewrite !app_nil_r. split.
    + intro H. repeat (apply app_eq_nil in H as [? H]). auto.
    + intros (-> & -> & -> & -> & ->). reflexivity.
Qed.

(** ** Ad and package schemas *)

Lemma AdCreate_validate_Ok fits cid t d pr pn loc ci im tg c :
  AdCreate.validate fits cid t d pr pn loc ci im tg = Ok c <->
  cid = Some (AdCreate.category_id c) /\ t = Some (AdCreate.title c)
  /\ d = Some (AdCreate.description c) /\ pr = AdCreate.price c
  /\ AdCreate.price_negotiable c = keyword pn false
  /\ loc = AdCreate.location c /\ ci = AdCreate.contact_info c
  /\ AdCreate.images c = keyword im [] /\ AdCreate.tags c = keyword tg []
  /\ AdCreate.errors fits cid t d pr loc ci = [].
Proof.
  unfold AdCreate.validate. split.
  - destruct cid, t, d; destruct (AdCreate.errors _ _ _ _ _ _ _); intro H;
      try discriminate H.
    injection H as <-. simpl. repeat split.
  - intros (-> & -> & -> & -> & Hpn & -> & -> & Him & Htg & ->).
    destruct c; simpl in *. now subst.
Qed.

Lemma AdCreate_errors_nil fits cid t d pr loc ci :
  AdCreate.errors fits cid t d pr loc ci = [] <->
  plain_field "category_id" cid = []
  /\ str_field "title" 0 200 t = [] /\ str_field "description" 0 5000 d = []
  /\ opt_decimal_field fits "price" 15 2 pr = []
  /\ opt_str_field "location" 200 loc = []
  /\ opt_str_field "contact_info" 500 ci = [].
Proof.
  unfold AdCreate.errors. split.
  - intro H. repeat (apply app_eq_nil in H as [? H]). auto 7.
  - intros (-> & -> & -> & -> & -> & ->). reflexivity.
Qed.

Lemma opt_decimal_field_ok fits field md dp given :
  opt_decimal_field fits field md dp given = [] <->
  match given with
  | Some d => fits md dp d = true
  | None => True
  end.
Proof.
  destruct given as [d|]; simpl; [|tauto].
  destruct (fits md dp d); split; intro H; try discriminate; reflexivity.
Qed.

(** X6: what an [AdCreate] accepts can be stored and edited: an [Ad] row
    built from the fields of an accepted request is within the length of
    the title, description, location and contact columns and within the
    decimal limits of the price column (the two classes declare the same
    limits), and the same fields are accepted as an [AdUpdate]; omitted
    [price_negotiable], [images] and [tags] are stored as false and the
    empty list. *)
Theorem accepted_ad_fits_ads (fits : DecimalCheck) (cid : option Z)
    (t d : option string) (pr : option Decimal) (pn : option bool)
    (loc ci : option string) (im tg : option (list string)) (c : AdCreate.t)
    (Hok : AdCreate.validate fits cid t d pr pn loc ci im tg = Ok c) :
  (forall clk user id status boosted boost_expiry views contacts featured
          created updated expiry,
      Ad_fits_columns fits
        (Ad.init clk user (AdCreate.category_id c) (AdCreate.title c)
           (AdCreate.description c) id (AdCreate.price c)
           (Some (AdCreate.price_negotiable c)) (AdCreate.location c)
           (AdCreate.contact_info c) (Some (AdCreate.images c))
           (Some (AdCreate.tags c)) status boosted boost_expiry views
           contacts featured created updated expiry) = true)
  /\ (forall status,
         exists r,
           AdUpdate.validate fits (Some (AdCreate.category_id c))
             (Some (AdCreate.title c)) (Some (AdCreate.description c))
             (AdCreate.price c) (Some (AdCreate.price_negotiable c))
             (AdCreate.location c) (AdCreate.contact_info c)
             (Some (AdCreate.images c)) (Some (AdCreate.tags c)) status
           = Ok r
           /\ AdUpdate.title r = Some (AdCreate.title c)
           /\ AdUpdate.price r = AdCreate.price c)
  /\ AdCreate.price_negotiable c = keyword pn false
  /\ AdCreate.images c = keyword im []
  /\ AdCreate.tags c = keyword tg [].
Proof.
  apply AdCreate_validate_Ok in Hok
    as (-> & -> & -> & -> & Hpn & -> & -> & Him & Htg & H).
  apply AdCreate_errors_nil in H as (_ & Ht & Hd & Hpr & Hloc & Hci).
  split; [|split; [|auto]].
  - intros. unfold Ad_fits_columns; simpl.
    apply str_field_ok in Ht as (st & [= <-] & Ht).
    apply str_field_ok in Hd as (sd & [= <-] & Hd).
    apply opt_decimal_field_ok in Hpr.
    apply opt_str_field_ok in Hloc. apply opt_str_field_ok in Hci.
    rewrite Hloc, Hci.
    repeat (apply andb_true_intro; split); trivial;
      try (apply Nat.leb_le; lia).
    now destruct (AdCreate.price c).
  - intro status. eexists. split.
    + apply AdUpdate_validate_Ok. split; [reflexivity|].
      unfold AdUpdate.errors. rewrite Hpr, Hloc, Hci.
      rewrite (@str_field_as_optional "title" "title" 0 200 _ Ht).
      now rewrite (@str_field_as_optional "description" "description"
                     0 5000 _ Hd).
    + split; reflexivity.
Qed.

Lemma new_ad_accepted :
  AdCreate.validate Fixtures.fits (Some 3) (Some "Sepeda bekas")
    (Some "Sepeda gunung, mulus")
    (Some {| coefficient := 125000000; exponent := -2 |}) (Some true)
    (Some "Bandung") None None (Some ["sepeda"])
  = Ok Fixtures.new_ad.
Proof. reflexivity. Defined.

(** X6 (witness): the bicycle advertisement, at Rp 1,250,000.00, fits
    the [ads] columns. *)
Lemma accepted_ad_fits_ads_witness :
  Ad_fits_columns Fixtures.fits
    (Ad.init Fixtures.clk 7 3 "Sepeda bekas" "Sepeda gunung, mulus" None
       (Some {| coefficient := 125000000; exponent := -2 |}) (Some true)
       (Some "Bandung") None (Some []) (Some ["sepeda"])
       None None None None None None None None None) = true.
Proof.
  exact (proj1 (accepted_ad_fits_ads _ _ _ _ _ _ _ _ _ _ new_ad_accepted)
           Fixtures.clk 7 None None None None None None None None None None).
Defined.

Lemma MembershipPackageCreate_validate_Ok fits n d p dd ma bc ps fs c :
  MembershipPackageCreate.validate fits n d p dd ma bc ps fs = Ok c <->
  n = Some (MembershipPackageCreate.name c)
  /\ d = Some (MembershipPackageCreate.description c)
  /\ p = Some (MembershipPackageCreate.price c)
  /\ dd = Some (MembershipPackageCreate.duration_days c)
  /\ ma = Some (MembershipPackageCreate.max_ads c)
  /\ MembershipPackageCreate.boost_credits c = keyword bc 0
  /\ MembershipPackageCreate.priority_support c = keyword ps false
  /\ MembershipPackageCreate.features c = keyword fs []
  /\ MembershipPackageCreate.errors fits n d p dd ma = [].
Proof.
  unfold MembershipPackageCreate.validate. split.
  - destruct n, d, p, dd, ma;
      destruct (MembershipPackageCreate.errors _ _ _ _ _ _); intro H;
      try discriminate H.
    injection H as <-. simpl. repeat split.
  - intros (-> & -> & -> & -> & -> & Hbc & Hps & Hfs & ->).
    destruct c; simpl in *. now subst.
Qed.

(** X7: a package request is accepted exactly when its name and
    description are given with at most 100 and 1000 characters and its
    price passes the decimal check for 10 digits and 2 places; the
    integers are not constrained, so any [duration_days], [max_ads] and
    [boost_credits], zero and negative ones included, are accepted and
    stored as given ([boost_credits] as 0 when omitted). *)
Theorem package_create_integers_unconstrained (fits : DecimalCheck)
    (n d : option string) (p : option Decimal) (dd ma : Z)
    (bc : option Z) (ps : option bool) (fs : option json_dict) :
  ((exists c, MembershipPackageCreate.validate fits n d p (Some dd) (Some ma)
                bc ps fs = Ok c) <->
   (exists sn sd sp,
       n = Some sn /\ d = Some sd /\ p = Some sp
       /\ (characters sn <= 100)%nat /\ (characters sd <= 1000)%nat
       /\ fits 10%nat 2%nat sp = true))
  /\ (forall c, MembershipPackageCreate.validate fits n d p (Some dd)
                  (Some ma) bc ps fs = Ok c ->
                MembershipPackageCreate.duration_days c = dd
                /\ MembershipPackageCreate.max_ads c = ma
                /\ MembershipPackageCreate.boost_credits c = keyword bc 0).
Proof.
  assert (Hnil : MembershipPackageCreate.errors fits n d p (Some dd) (Some ma)
                 = [] <->
                 (exists sn sd sp,
                     n = Some sn /\ d = Some sd /\ p = Some sp
                     /\ (characters sn <= 100)%nat
                     /\ (characters sd <= 1000)%nat
                     /\ fits 10%nat 2%nat sp = true)).
  { unfold MembershipPackageCreate.errors. simpl. rewrite !app_nil_r. split.
    - intro H. apply app_eq_nil in H as [Hn H].
      apply app_eq_nil in H as [Hd Hp].
      apply str_field_ok in Hn as (sn & -> & Hn).
      apply str_field_ok in Hd as (sd & -> & Hd).
      destruct p as [sp|]; [|discriminate Hp]. simpl in Hp.
      exists sn, sd, sp. repeat split; try lia.
      now destruct (fits 10%nat 2%nat sp).
    - intros (sn & sd & sp & -> & -> & -> & Hn & Hd & Hp). simpl.
      rewrite Hp.
      rewrite (proj2 (check_length_ok "name" 0 100 sn)) by lia.
      now rewrite (proj2 (check_length_ok "description" 0 1000 sd)) by lia. }
  split.
  - rewrite <- Hnil. split.
    + intros (c & H). now apply MembershipPackageCreate_validate_Ok in H.
    + intro H. pose proof H as H'.
      apply Hnil in H' as (sn & sd & sp & -> & -> & -> & _).
      exists {| MembershipPackageCreate.name := sn;
                MembershipPackageCreate.description := sd;
                MembershipPackageCreate.price := sp;
                MembershipPackageCreate.duration_days := dd;
                MembershipPackageCreate.max_ads := ma;
                MembershipPackageCreate.boost_credits := keyword bc 0;
                MembershipPackageCreate.priority_support := keyword ps false;
                MembershipPackageCreate.features := keyword fs [] |}.
      apply MembershipPackageCreate_validate_Ok. simpl. repeat split. exact H.
  - intros c H. apply MembershipPackageCreate_validate_Ok in H
      as (_ & _ & _ & [= <-] & [= <-] & Hbc & _).
    auto.
Qed.

(** ** Validating again what was accepted *)

(** X8: validation is a round trip on what it accepts: feeding the
    fields of an accepted [AdBoost], [PaymentCallback], [UserCreate],
    [UserLogin], [CategoryCreate], [AdCreate] or
    [MembershipPackageCreate] back to its schema returns the same value,
    with nothing changed and no default applied a second time. *)
Theorem accepted_requests_revalidate :
  (forall a d b,
      AdBoost.validate a d = Ok b ->
      AdBoost.validate (Some (AdBoost.ad_id b))
        (Some (AdBoost.duration_days b)) = Ok b)
  /\ (forall o s t p g k cb,
         PaymentCallback.validate o s t p g k = Ok cb ->
         PaymentCallback.validate (Some (PaymentCallback.order_id cb))
           (Some (PaymentCallback.transaction_status cb))
           (PaymentCallback.transaction_id cb)
           (PaymentCallback.payment_type cb)
           (PaymentCallback.gross_amount cb)
           (PaymentCallback.signature_key cb) = Ok cb)
  /\ (forall u e p f ph c,
         UserCreate.validate u e p f ph = Ok c ->
         UserCreate.validate (Some (UserCreate.username c))
           (Some (UserCreate.email c)) (Some (UserCreate.password c))
           (Some (UserCreate.full_name c)) (UserCreate.phone c) = Ok c)
  /\ (forall u p l,
         UserLogin.validate u p = Ok l ->
         UserLogin.validate (Some (UserLogin.username l))
           (Some (UserLogin.password l)) = Ok l)
  /\ (forall n d i so c,
         CategoryCreate.validate n d i so = Ok c ->
         CategoryCreate.validate (Some (CategoryCreate.name c))
           (CategoryCreate.description c) (CategoryCreate.icon c)
           (Some (CategoryCreate.sort_order c)) = Ok c)
  /\ (forall fits cid t d pr pn loc ci im tg c,
         AdCreate.validate fits cid t d pr pn loc ci im tg = Ok c ->
         AdCreate.validate fits (Some (AdCreate.category_id c))
           (Some (AdCreate.title c)) (Some (AdCreate.description c))
           (AdCreate.price c) (Some (AdCreate.price_negotiable c))
           (AdCreate.location c) (AdCreate.contact_info c)
           (Some (AdCreate.images c)) (Some (AdCreate.tags c)) = Ok c)
  /\ (forall fits n d p dd ma bc ps fs c,
         MembershipPackageCreate.validate fits n d p dd ma bc ps fs = Ok c ->
         MembershipPackageCreate.validate fits
           (Some (MembershipPackageCreate.name c))
           (Some (MembershipPackageCreate.description c))
           (Some (MembershipPackageCreate.price c))
           (Some (MembershipPackageCreate.duration_days c))
           (Some (MembershipPackageCreate.max_ads c))
           (Some (MembershipPackageCreate.boost_credits c))
           (Some (MembershipPackageCreate.priority_support c))
           (Some (MembershipPackageCreate.features c)) = Ok c).
Proof.
  repeat split.
  - intros a d b. unfold AdBoost.validate.
    destruct a as [a|], d as [d|]; simpl; try discriminate.
    destruct (d <? 1) eqn:E1, (30 <? d) eqn:E2; simpl; try discriminate.
    intro H; injection H as <-. simpl. now rewrite E1, E2.
  - intros o s t p g k cb. unfold PaymentCallback.validate.
    destruct o, s; simpl; try discriminate.
    intro H; injection H as <-. reflexivity.
  - intros u e p f ph c H.
    apply UserCreate_validate_Ok in H as (-> & -> & -> & -> & -> & H).
    apply UserCreate_validate_Ok. repeat split. exact H.
  - intros u p l H. apply UserLogin_validate_Ok in H as (-> & -> & H).
    apply UserLogin_validate_Ok. repeat split. exact H.
  - intros n d i so c H.
    apply CategoryCreate_validate_Ok in H as (-> & -> & -> & _ & H).
    apply CategoryCreate_validate_Ok. repeat split. exact H.
  - intros fits cid t d pr pn loc ci im tg c H.
    apply AdCreate_validate_Ok in H
      as (-> & -> & -> & -> & _ & -> & -> & _ & _ & H).
    apply AdCreate_validate_Ok. repeat split. exact H.
  - intros fits n d p dd ma bc ps fs c H.
    apply MembershipPackageCreate_validate_Ok in H
      as (-> & -> & -> & -> & -> & _ & _ & _ & H).
    apply MembershipPackageCreate_validate_Ok. repeat split. exact H.
Qed.

(** ** Inserting into a table *)

Lemma max_key_bound (ids : list (option Z)) (i : Z) :
  In (Some i) ids -> exists m, max_key ids = Some m /\ i <= m.
Proof.
  induction ids as [|x ids IH]; [intros []|].
  intros [->|Hin]; cbn [max_key].
  - destruct (max_key ids) as [m|]; eexists; split; try reflexivity; lia.
  - destruct (IH Hin) as (m & -> & Hm).
    destruct x as [k|]; eexists; split; try reflexivity; lia.
Qed.

Lemma next_id_fresh (ids : list (option Z)) (i : Z) :
  In (Some i) ids -> i < next_id ids.
Proof.
  intro Hin. unfold next_id.
  destruct (max_key_bound _ _ Hin) as (m & -> & Hm). lia.
Qed.

(** Looking up in a table that has one more row at its end. *)
Lemma find_snoc {A : Type} (f : A -> bool) (tbl : list A) (r : A) :
  find f (tbl ++ [r])
  = match find f tbl with
    | Some q => Some q
    | None => if f r then Some r else None
    end.
Proof.
  induction tbl as [|q tbl IH]; simpl; [reflexivity|].
  now destruct (f q).
Qed.

Lemma NoDup_snoc {A : Type} (l : list A) (x : A) :
  NoDup l -> ~ In x l -> NoDup (l ++ [x]).
Proof.
  intros Hl Hx. apply NoDup_app; repeat split; trivial.
  - repeat constructor. intros [].
  - intros y Hy [<-|[]]. now apply Hx.
Qed.

Lemma NoDup_map_injective {A B : Type} (f : A -> B) (l : list A) (a b : A) :
  NoDup (map f l) -> In a l -> In b l -> f a = f b -> a = b.
Proof.
  induction l as [|x l IH]; simpl; [tauto|].
  intros Hnd Ha Hb Hab. inversion Hnd as [|? ? Hx Hnd']; subst.
  destruct Ha as [->|Ha], Hb as [->|Hb]; trivial.
  - exfalso. apply Hx. rewrite Hab. now apply in_map.
  - exfalso. apply Hx. rewrite <- Hab. now apply in_map.
  - now apply IH.
Qed.

Section Tables.
Variable Row : Type.
Variable spec : TableSpec Row.
Hypothesis spec_lawful : lawful spec.

Lemma insert_row_inv r tbl tbl' :
  insert_row spec r tbl = Ok tbl' ->
  tbl' = tbl ++ [set_pk spec
                   (Some (keyword (pk spec r)
                            (next_id (map (pk spec) tbl)))) r]
  /\ (forall q, In q tbl ->
                pk spec q
                <> Some (keyword (pk spec r) (next_id (map (pk spec) tbl))))
  /\ (forall col q, In col (unique_columns spec) -> In q tbl ->
                    snd col q <> snd col r).
Proof.
  unfold insert_row.
  destruct (existsb _ tbl) eqn:Hpk; [discriminate|].
  destruct (find (column_taken tbl r) (unique_columns spec)) eqn:Hcol;
    [discriminate|].
  intro H; injection H as <-. split; [reflexivity|]. split.
  - intros q Hin Heq.
    assert (existsb
              (fun q => opt_Z_eqb (pk spec q)
                          (Some (keyword (pk spec r)
                                   (next_id (map (pk spec) tbl))))) tbl
            = true) as Hex; [|congruence].
    apply existsb_exists. exists q. split; [exact Hin|].
    rewrite Heq. simpl. apply Z.eqb_refl.
  - intros col q Hc Hin Heq.
    pose proof (find_none _ _ Hcol col Hc) as Hfree.
    unfold column_taken in Hfree.
    assert (existsb (fun q => String.eqb (snd col q) (snd col r)) tbl = true)
      as Hex; [|congruence].
    apply existsb_exists. exists q. split; [exact Hin|].
    rewrite Heq. apply String.eqb_refl.
Qed.

(** An insert that repeats a value of a unique column is refused. *)
Lemma insert_row_taken r q tbl col :
  In col (unique_columns spec) -> In q tbl -> snd col q = snd col r ->
  exists column, insert_row spec r tbl = Err (IntegrityError column).
Proof.
  intros Hc Hin Heq. unfold insert_row.
  destruct (existsb _ tbl); [now eexists|].
  destruct (find (column_taken tbl r) (unique_columns spec)) as [c|] eqn:Hf;
    [now eexists|].
  exfalso. pose proof (find_none _ _ Hf col Hc) as Hfree.
  unfold column_taken in Hfree.
  assert (existsb (fun q => String.eqb (snd col q) (snd col r)) tbl = true)
    as Hex; [|congruence].
  apply existsb_exists. exists q. split; [exact Hin|].
  rewrite Heq. apply String.eqb_refl.
Qed.

(** A row without key whose unique columns are free is always stored. *)
Lemma insert_row_auto r tbl :
  pk spec r = None ->
  (forall col q, In col (unique_columns spec) -> In q tbl ->
                 snd col q <> snd col r) ->
  insert_row spec r tbl
  = Ok (tbl ++ [set_pk spec (Some (next_id (map (pk spec) tbl))) r]).
Proof.
  intros Hpk Hfree. unfold insert_row. rewrite Hpk. simpl.
  destruct (existsb _ tbl) eqn:Hex.
  - exfalso. apply existsb_exists in Hex as (q & Hin & Hq).
    destruct (pk spec q) as [i|] eqn:Hi; [|discriminate].
    simpl in Hq. apply Z.eqb_eq in Hq.
    assert (i < next_id (map (pk spec) tbl)); [|lia].
    apply next_id_fresh. rewrite <- Hi. now apply in_map.
  - destruct (find (column_taken tbl r) (unique_columns spec)) as [c|] eqn:Hf;
      [|reflexivity].
    exfalso. apply find_some in Hf as [Hc Htaken].
    unfold column_taken in Htaken.
    apply existsb_exists in Htaken as (q & Hin & Hq).
    apply String.eqb_eq in Hq. exact (Hfree c q Hc Hin Hq).
Qed.

(** After an insert, the row is found by the value of a unique column,
    and the rows found by other values are the ones found before. *)
Lemma insert_row_lookup r tbl tbl' col :
  insert_row spec r tbl = Ok tbl' ->
  In col (unique_columns spec) ->
  find (fun q => String.eqb (snd col q) (snd col r)) tbl'
  = Some (set_pk spec
            (Some (keyword (pk spec r) (next_id (map (pk spec) tbl)))) r)
  /\ (forall k, k <> snd col r ->
                find (fun q => String.eqb (snd col q) k) tbl'
                = find (fun q => String.eqb (snd col q) k) tbl).
Proof.
  intros Hins Hc. destruct spec_lawful as [_ Hcols].
  apply insert_row_inv in Hins as (-> & _ & Hfree). split.
  - rewrite find_snoc.
    destruct (find _ tbl) as [q|] eqn:Hf.
    + apply find_some in Hf as [Hin Hq]. apply String.eqb_eq in Hq.
      now destruct (Hfree col q Hc Hin).
    + now rewrite (Hcols _ _ _ Hc), String.eqb_refl.
  - intros k Hk. rewrite find_snoc.
    destruct (find _ tbl); [reflexivity|].
    rewrite (Hcols _ _ _ Hc).
    destruct (String.eqb_spec (snd col r) k); [congruence | reflexivity].
Qed.

(** The tables built by inserts give every row a key of its own and
    never repeat a value in a unique column. *)
Lemma inserted_keys tbl :
  inserted spec tbl ->
  Forall (fun q => pk spec q <> None) tbl
  /\ NoDup (map (pk spec) tbl)
  /\ (forall col, In col (unique_columns spec) -> NoDup (map (snd col) tbl)).
Proof.
  destruct spec_lawful as [Hpk Hcols].
  induction 1 as [|r tbl tbl' _ (IHsome & IHpk & IHcol) Hins].
  - repeat split; constructor.
  - apply insert_row_inv in Hins as (-> & Hfresh & Hfree).
    split; [|split].
    + apply Forall_app; split; [exact IHsome|].
      constructor; [|constructor]. now rewrite Hpk.
    + rewrite map_app. simpl. apply NoDup_snoc; [exact IHpk|].
      rewrite Hpk. intro Hin. apply in_map_iff in Hin as (q & Hq & Hin).
      exact (Hfresh q Hin Hq).
    + intros col Hc. rewrite map_app. simpl.
      apply NoDup_snoc; [now apply IHcol|].
      rewrite (Hcols _ _ _ Hc). intro Hin.
      apply in_map_iff in Hin as (q & Hq & Hin).
      exact (Hfree col q Hc Hin Hq).
Qed.
End Tables.

Lemma users_table_lawful : lawful users_table.
Proof.
  split; [reflexivity|].
  intros i r col [<-|[<-|[]]]; reflexivity.
Qed.

Lemma categories_table_lawful : lawful categories_table.
Proof.
  split; [reflexivity|]. intros i r col [<-|[]]; reflexivity.
Qed.

Lemma system_settings_table_lawful : lawful system_settings_table.
Proof.
  split; [reflexivity|]. intros i r col [<-|[]]; reflexivity.
Qed.

Lemma payments_table_lawful : lawful payments_table.
Proof.
  split; [reflexivity|]. intros i r col [<-|[]]; reflexivity.
Qed.

Lemma user_memberships_table_lawful : lawful user_memberships_table.
Proof. split; [reflexivity|]. intros i r col []. Qed.

Lemma ad_statistics_table_lawful : lawful ad_statistics_table.
Proof. split; [reflexivity|]. intros i r col []. Qed.

(** The INSERT of the payments table is the generic insert for its
    declared constraints. *)
Lemma insert_payment_is_insert_row p tbl :
  insert_payment p tbl = insert_row payments_table p tbl.
Proof.
  unfold insert_payment, insert_row. simpl.
  destruct (existsb _ tbl); [reflexivity|].
  unfold column_taken, has_order_id. simpl.
  now destruct (existsb _ tbl).
Qed.

Lemma insert_row_error {Row : Type} (spec : TableSpec Row) r tbl column :
  insert_row spec r tbl = Err (IntegrityError column) ->
  column = "id" \/ In column (map fst (unique_columns spec)).
Proof.
  unfold insert_row. destruct (existsb _ tbl).
  - intro H; injection H as <-. now left.
  - destruct (find (column_taken tbl r) (unique_columns spec)) as [c|] eqn:Hf;
      [|discriminate].
    intro H; injection H as <-. right.
    apply find_some in Hf as [Hc _]. now apply in_map.
Qed.

(** X10: a payment that was inserted is found again by its order id:
    the row found carries that order id, a primary key that no row
    stored before has, and the user, type, status and target ids it was
    given; lookups by any other order id return what they returned
    before, and the table has grown by exactly one row. *)
Theorem stored_payment_found_by_order_id (p : Payment.t)
    (tbl tbl' : list Payment.t) (Hins : insert_payment p tbl = Ok tbl') :
  (exists row,
      find (has_order_id (Payment.midtrans_order_id p)) tbl' = Some row
      /\ Payment.midtrans_order_id row = Payment.midtrans_order_id p
      /\ Payment.id row <> None
      /\ (forall q, In q tbl -> Payment.id q <> Payment.id row)
      /\ Payment.user_id row = Payment.user_id p
      /\ Payment.payment_type row = Payment.payment_type p
      /\ Payment.status row = Payment.status p
      /\ Payment.membership_package_id row = Payment.membership_package_id p
      /\ Payment.boosted_ad_id row = Payment.boosted_ad_id p)
  /\ (forall oid, oid <> Payment.midtrans_order_id p ->
                  find (has_order_id oid) tbl' = find (has_order_id oid) tbl)
  /\ List.length tbl' = S (List.length tbl).
Proof.
  rewrite insert_payment_is_insert_row in Hins.
  destruct (insert_row_lookup payments_table_lawful p tbl
              ("midtrans_order_id", Payment.midtrans_order_id) Hins
              (or_introl eq_refl)) as [Hfound Hothers].
  apply insert_row_inv in Hins as (-> & Hfresh & _).
  split; [|split; [exact Hothers|]].
  - eexists. split; [exact Hfound|]. simpl.
    repeat split; try discriminate. exact Hfresh.
  - rewrite length_app. simpl. lia.
Qed.

Lemma order_A_inserted :
  insert_payment (Fixtures.order "ORDER-A") [] = Ok Fixtures.orders.
Proof. reflexivity. Defined.

(** X10 (witness): the first order is found by [ORDER-A] and lookups by
    another order id find nothing, as before the insert. *)
Lemma stored_payment_found_by_order_id_witness :
  (exists row,
      find (has_order_id "ORDER-A") Fixtures.orders = Some row
      /\ Payment.midtrans_order_id row = "ORDER-A"
      /\ Payment.id row <> None)
  /\ find (has_order_id "ORDER-B") Fixtures.orders = None.
Proof.
  destruct (@stored_payment_found_by_order_id _ _ _ order_A_inserted)
    as [(row & Hrow & Hoid & Hid & _) [Hothers _]].
  split.
  - exists row. auto.
  - rewrite Hothers; [reflexivity | discriminate].
Defined.

(** X11: a user whose username or email is already stored cannot be
    inserted: the insert fails with an integrity error on the primary
    key or on one of the two unique columns, and no row is added. *)
Theorem user_insert_refuses_taken_identity (r q : User.t)
    (tbl : list User.t) (Hin : In q tbl)
    (Hsame : User.username r = User.username q
             \/ User.email r = User.email q) :
  exists column,
    insert_row users_table r tbl = Err (IntegrityError column)
    /\ In column ["id"; "username"; "email"].
Proof.
  assert (exists column,
             insert_row users_table r tbl = Err (IntegrityError column))
    as (column & H).
  { destruct Hsame as [Hsame|Hsame].
    - apply insert_row_taken
        with (q := q) (col := ("username", User.username)); simpl; auto.
    - apply insert_row_taken
        with (q := q) (col := ("email", User.email)); simpl; auto. }
  exists column. split; [exact H|].
  apply insert_row_error in H.
  destruct H as [->|[<-|[<-|[]]]]; simpl; auto.
Qed.

Lemma fixture_users_inserted : inserted users_table Fixtures.users.
Proof.
  apply ins_row with (r := Fixtures.sari)
                     (tbl := [User.set_id (Some 1) Fixtures.budi]);
    [|reflexivity].
  apply ins_row with (r := Fixtures.budi) (tbl := []); [|reflexivity].
  apply ins_empty.
Defined.

(** X11 (witness): a second account with the email of budi is refused. *)
Lemma user_insert_refuses_taken_identity_witness :
  exists column,
    insert_row users_table
      (User.init Fixtures.clk "budi2" "budi@example.com" "pbkdf2$hash"
         "Budi Dua" None None None None None None None)
      Fixtures.users = Err (IntegrityError column)
    /\ In column ["id"; "username"; "email"].
Proof.
  apply user_insert_refuses_taken_identity
    with (q := User.set_id (Some 1) Fixtures.budi).
  - left; reflexivity.
  - right; reflexivity.
Defined.

(** X12: in a users table built by inserts every row has a primary key,
    no two rows share a primary key, a username or an email, and
    therefore a username or an email identifies at most one user. *)
Theorem users_unique_by_username_and_email (tbl : list User.t)
    (Hins : inserted users_table tbl) :
  Forall (fun u => User.id u <> None) tbl
  /\ NoDup (map User.id tbl)
  /\ NoDup (map User.username tbl)
  /\ NoDup (map User.email tbl)
  /\ (forall a b, In a tbl -> In b tbl ->
                  User.username a = User.username b
                  \/ User.email a = User.email b ->
                  a = b).
Proof.
  destruct (inserted_keys users_table_lawful Hins) as (Hsome & Hpk & Hcol).
  pose proof (Hcol ("username", User.username) (or_introl eq_refl)) as Hu.
  pose proof (Hcol ("email", User.email) (or_intror (or_introl eq_refl)))
    as He.
  simpl in Hu, He. repeat split; trivial.
  intros a b Ha Hb [H|H].
  - exact (NoDup_map_injective _ _ _ _ Hu Ha Hb H).
  - exact (NoDup_map_injective _ _ _ _ He Ha Hb H).
Qed.

(** X12 (witness): budi and sari are stored with keys 1 and 2. *)
Lemma users_unique_by_username_and_email_witness :
  map (fun u => (User.id u, User.username u)) Fixtures.users
  = [(Some 1, "budi"); (Some 2, "sari")]
  /\ NoDup (map User.email Fixtures.users).
Proof.
  split; [reflexivity|].
  exact (proj1 (proj2 (proj2 (proj2
           (@users_unique_by_username_and_email _ fixture_users_inserted))))).
Defined.

Lemma fixture_categories_inserted :
  inserted categories_table Fixtures.categories.
Proof.
  apply ins_row with (r := Fixtures.vehicles) (tbl := []); [|reflexivity].
  apply ins_empty.
Defined.

Lemma fixture_settings_inserted :
  inserted system_settings_table Fixtures.settings.
Proof.
  apply ins_row with (r := Fixtures.site_name) (tbl := []); [|reflexivity].
  apply ins_empty.
Defined.

(** X13: in tables built by inserts a category name identifies at most
    one category and a setting key at most one setting, and a category
    or setting whose name or key is already stored is refused. *)
Theorem names_and_keys_identify_rows (cats : list Category.t)
    (sets : list SystemSetting.t)
    (Hcats : inserted categories_table cats)
    (Hsets : inserted system_settings_table sets) :
  (forall a b, In a cats -> In b cats ->
               Category.name a = Category.name b -> a = b)
  /\ (forall a b, In a sets -> In b sets ->
                  SystemSetting.key a = SystemSetting.key b -> a = b)
  /\ (forall c q, In q cats -> Category.name c = Category.name q ->
                  exists column,
                    insert_row categories_table c cats
                    = Err (IntegrityError column))
  /\ (forall r q, In q sets -> SystemSetting.key r = SystemSetting.key q ->
                  exists column,
                    insert_row system_settings_table r sets
                    = Err (IntegrityError column)).
Proof.
  destruct (inserted_keys categories_table_lawful Hcats) as (_ & _ & Hc).
  destruct (inserted_keys system_settings_table_lawful Hsets)
    as (_ & _ & Hs).
  pose proof (Hc ("name", Category.name) (or_introl eq_refl)) as Hn.
  pose proof (Hs ("key", SystemSetting.key) (or_introl eq_refl)) as Hk.
  simpl in Hn, Hk. repeat split.
  - intros a b Ha Hb H. exact (NoDup_map_injective _ _ _ _ Hn Ha Hb H).
  - intros a b Ha Hb H. exact (NoDup_map_injective _ _ _ _ Hk Ha Hb H).
  - intros c q Hq H.
    apply insert_row_taken with (q := q) (col := ("name", Category.name));
      simpl; auto.
  - intros r q Hq H.
    apply insert_row_taken with (q := q) (col := ("key", SystemSetting.key));
      simpl; auto.
Qed.

(** X13 (witness): a second setting under [site_name] is refused. *)
Lemma names_and_keys_identify_rows_witness :
  exists column,
    insert_row system_settings_table
      (SystemSetting.init Fixtures.clk "site_name" "Pasar Online" None None
         None None None)
      Fixtures.settings = Err (IntegrityError column).
Proof.
  apply (proj2 (proj2 (proj2
           (@names_and_keys_identify_rows _ _ fixture_categories_inserted
              fixture_settings_inserted))))
    with (q := SystemSetting.set_id (Some 1) Fixtures.site_name).
  - left; reflexivity.
  - reflexivity.
Defined.

(** X14: the membership and statistics tables declare no unique column,
    so storage alone enforces neither rule of the ledger: for any table,
    two memberships of the same user built with the default status are
    both stored and both active, and two statistics rows for the same ad
    and the same day are both stored. *)
Theorem tables_without_unique_columns_accept_repeats :
  (forall tbl clk1 clk2 user pkg1 pkg2 end1 end2,
      exists t1 t2,
        insert_row user_memberships_table
          (UserMembership.init clk1 user pkg1 end1 None None None None None
             None None None) tbl = Ok t1
        /\ insert_row user_memberships_table
             (UserMembership.init clk2 user pkg2 end2 None None None None
                None None None None) t1 = Ok t2
        /\ (2 <= List.length (active_of user t2))%nat
        /\ ~ at_most_one_active t2)
  /\ (forall tbl clk ad user,
         exists t1 t2,
           insert_row ad_statistics_table
             (AdStatistic.init clk ad user None None None None None) tbl
           = Ok t1
           /\ insert_row ad_statistics_table
                (AdStatistic.init clk ad user None None None None None) t1
              = Ok t2
           /\ (2 <= List.length
                      (filter (fun r => ((AdStatistic.ad_id r =? ad)
                                         && (AdStatistic.date r =? today clk))%Z)
                         t2))%nat).
Proof.
  split.
  - intros. do 2 eexists.
    split; [apply (insert_row_auto user_memberships_table);
            [reflexivity | intros col q []]|].
    split; [apply (insert_row_auto user_memberships_table);
            [reflexivity | intros col q []]|].
    assert (2 <= List.length
                   (active_of user
                      ((tbl ++
                        [UserMembership_set_id
                           (Some (next_id (map UserMembership.id tbl)))
                           (UserMembership.init clk1 user pkg1 end1 None None
                              None None None None None None)]) ++
                       [UserMembership_set_id
                          (Some (next_id
                                   (map UserMembership.id
                                      (tbl ++
                                       [UserMembership_set_id
                                          (Some (next_id
                                                   (map UserMembership.id tbl)))
                                          (UserMembership.init clk1 user pkg1
                                             end1 None None None None None
                                             None None None)]))))
                          (UserMembership.init clk2 user pkg2 end2 None None
                             None None None None None None)])))%nat as Hlen.
    { rewrite !active_of_app, !length_app.
      unfold active_of at 2 3, superseded_by, UserMembership.is_active.
      simpl. rewrite Z.eqb_refl. simpl. lia. }
    split; [exact Hlen|].
    intro Hone. specialize (Hone user). simpl in *. lia.
  - intros. do 2 eexists.
    split; [apply (insert_row_auto ad_statistics_table);
            [reflexivity | intros col q []]|].
    split; [apply (insert_row_auto ad_statistics_table);
            [reflexivity | intros col q []]|].
    rewrite !filter_app, !length_app. simpl.
    rewrite !Z.eqb_refl. simpl. lia.
Qed.

(** ** Payment requests *)

(** X15: a [PaymentCreate] is accepted exactly when the payment type is
    given and the amount passes the decimal check for 12 digits and 2
    places; the two target ids play no part: for either payment type the
    request is accepted with both ids, one or none, and stores them as
    given. *)
Theorem payment_create_accepts_any_targets (fits : DecimalCheck)
    (ty : option PaymentType.t) (package ad : option Z)
    (amount : option Decimal) :
  ((exists c, PaymentCreate_validate fits ty package ad amount = Ok c) <->
   (exists t a, ty = Some t /\ amount = Some a /\ fits 12%nat 2%nat a = true))
  /\ (forall c, PaymentCreate_validate fits ty package ad amount = Ok c ->
                ty = Some (PaymentCreate.payment_type c)
                /\ amount = Some (PaymentCreate.amount c)
                /\ PaymentCreate.membership_package_id c = package
                /\ PaymentCreate.boosted_ad_id c = ad)
  /\ (forall package' ad',
         (exists c, PaymentCreate_validate fits ty package ad amount = Ok c)
         <-> (exists c, PaymentCreate_validate fits ty package' ad' amount
                        = Ok c)).
Proof.
  assert (Hiff : forall package ad,
             (exists c, PaymentCreate_validate fits ty package ad amount
                        = Ok c) <->
             (exists t a, ty = Some t /\ amount = Some a
                          /\ fits 12%nat 2%nat a = true)).
  { intros pk0 ad0. unfold PaymentCreate_validate.
    destruct ty as [t|], amount as [a|]; simpl.
    - destruct (fits 12%nat 2%nat a) eqn:E; simpl; split.
      + intros _. now exists t, a.
      + intros _. now eexists.
      + intros (c & H); discriminate H.
      + intros (t' & a' & _ & [= <-] & H). congruence.
    - split; [intros (c & H); discriminate H|].
      now intros (t' & a' & _ & H & _).
    - split; [intros (c & H); now destruct (fits 12%nat 2%nat a)|].
      now intros (t' & a' & H & _).
    - split; [intros (c & H); discriminate H|].
      now intros (t' & a' & H & _). }
  split; [apply Hiff|]. split.
  - intros c. unfold PaymentCreate_validate.
    destruct ty as [t|], amount as [a|]; simpl; try discriminate.
    destruct (fits 12%nat 2%nat a); simpl; [|discriminate].
    intro H; injection H as <-. simpl. repeat split.
  - intros package' ad'. now rewrite !Hiff.
Qed.
